(** * helper_func/mux.py: the ffmpeg job orchestrator

    A shallow embedding of [src/helper_func/mux.py] and the properties of
    its progress parser, line reader, notification throttle, job registry
    and the two mux runners.

    Conventions.  A Python [str] is a list of Unicode code points and a
    Python [bytes] a list of octets, both carried by [Z].  Dictionaries are
    stdpp finite maps.  Coroutines are functions in a small monad that
    threads the process-wide state and propagates exceptions. *)

From Stdlib Require Import ZArith QArith Qround Lqa List String Ascii DecimalString Lia.
From stdpp Require Import base option gmap list strings.
Import ListNotations.
Local Open Scope Z_scope.

(** ** Text *)

Abbreviation str := (list Z).
Abbreviation bytes := (list Z).

(** An ASCII literal as a Python string. *)
Definition lit (s : string) : str :=
  map (fun a => Z.of_N (N_of_ascii a)) (list_ascii_of_string s).

(** Longest prefix whose elements satisfy [p], and what follows it. *)
Fixpoint take_while {A} (p : A -> bool) (l : list A) : list A :=
  match l with
  | x :: l' => if p x then x :: take_while p l' else []
  | [] => []
  end.

Fixpoint drop_while {A} (p : A -> bool) (l : list A) : list A :=
  match l with
  | x :: l' => if p x then drop_while p l' else l
  | [] => []
  end.

(** [strip_prefix p s] is [Some r] when [s = p ++ r]. *)
Fixpoint strip_prefix (p s : str) : option str :=
  match p, s with
  | [], _ => Some s
  | a :: p', b :: s' => if a =? b then strip_prefix p' s' else None
  | _ :: _, [] => None
  end.

(** ** Progress parsing (lines 20-24) *)

(** The class [\s] of a [str] pattern: the code points for which
    [str.isspace] holds. *)
Definition is_space (c : Z) : bool :=
  ((9 <=? c) && (c <=? 13)) || ((28 <=? c) && (c <=? 32))
  || (c =? 133) || (c =? 160) || (c =? 5760)
  || ((8192 <=? c) && (c <=? 8202))
  || (c =? 8232) || (c =? 8233) || (c =? 8239) || (c =? 8287) || (c =? 12288).

Definition non_space (c : Z) : bool := negb (is_space c).

(** The alternation [(frame|fps|size|time|bitrate|speed)], in its order. *)
Definition progress_fields : list str :=
  [lit "frame"; lit "fps"; lit "size"; lit "time"; lit "bitrate"; lit "speed"].

(** The rest of the pattern, [\s*=\s*(\S+)], matched greedily at the head
    of [r]: the captured value and the number of characters consumed.
    [=] is not white space, so the first [\s*] takes every blank; the
    second one does too, because [\S+] cannot start on a blank. *)
Definition match_value (r : str) : option (str * nat) :=
  match drop_while is_space r with
  | c :: r3 =>
      if c =? 61 then
        let r4 := drop_while is_space r3 in
        match take_while non_space r4 with
        | [] => None
        | v => Some (v, (length r - length r4 + length v)%nat)
        end
      else None
  | [] => None
  end.

(** One attempt of [progress_pattern] at the head of [s]: the two groups
    and the length of the match.  The alternatives are tried in order, the
    next one when the rest of the pattern fails after the current one. *)
Fixpoint match_alternatives (alts : list str) (s : str) : option (str * str * nat) :=
  match alts with
  | [] => None
  | k :: alts' =>
      match strip_prefix k s with
      | Some r =>
          match match_value r with
          | Some (v, n) => Some (k, v, (length k + n)%nat)
          | None => match_alternatives alts' s
          end
      | None => match_alternatives alts' s
      end
  end.

Definition match_here (s : str) : option (str * str * nat) :=
  match_alternatives progress_fields s.

(** [progress_pattern.findall]: the scan tries each position from the left
    and resumes right after a match; [skip] counts the characters of the
    last match still to be passed over. *)
Fixpoint findall_from (skip : nat) (s : str) : list (str * str) :=
  match s with
  | [] => []
  | _ :: s' =>
      match skip with
      | S n => findall_from n s'
      | O =>
          match match_here s with
          | Some (k, v, n) => (k, v) :: findall_from (n - 1) s'
          | None => findall_from 0 s'
          end
      end
  end.

Definition findall (line : str) : list (str * str) := findall_from 0 line.

(** [{k: v for k, v in pairs}]: the pairs are stored one after the other,
    a later one overwriting an earlier one with the same key. *)
Definition put_pair (d : gmap (list Z) (list Z)) (kv : str * str)
  : gmap (list Z) (list Z) := <[kv.1 := kv.2]> d.

Definition dict_of_pairs (pairs : list (str * str)) : gmap (list Z) (list Z) :=
  fold_left put_pair pairs ∅.

(** [items or None]: an empty dictionary is falsy. *)
Definition parse_progress (line : str) : option (gmap (list Z) (list Z)) :=
  let items := dict_of_pairs (findall line) in
  if decide (items = ∅) then None else Some items.

(** ** Line reader (lines 26-36) *)

Definition is_crlf (b : Z) : bool := (b =? 13) || (b =? 10).

(** [pattern.split(data)] for the pattern [[\r\n]+]: the pieces between
    the maximal runs of CR and LF.  The result is never empty; data that
    starts (ends) with a run yields an empty first (last) piece.  [in_run]
    tells that the previous octet belonged to a run. *)
Fixpoint split_from (in_run : bool) (data : bytes) : list bytes :=
  match data with
  | [] => [[]]
  | b :: data' =>
      if is_crlf b then
        if in_run then split_from true data' else [] :: split_from true data'
      else
        match split_from false data' with
        | piece :: pieces => (b :: piece) :: pieces
        | [] => [[b]]
        end
  end.

Definition re_split (data : bytes) : list bytes := split_from false data.

(** The asynchronous generator [readlines].  The stream is the list of
    what its successive [read(1024)] calls return; [at_eof()] holds once
    nothing is left to read.  Each turn of the loop splits the buffer,
    keeps the last piece as the new buffer, yields the other pieces and
    appends the next read.  The result pairs the yielded lines with the
    buffer that is dropped when the loop ends. *)
Fixpoint readlines_from (data : bytes) (stream : list bytes) : list bytes * bytes :=
  match stream with
  | [] => ([], data)
  | chunk :: stream' =>
      let parts := re_split data in
      let rest := readlines_from (List.last parts [] ++ chunk) stream' in
      (List.removelast parts ++ fst rest, snd rest)
  end.

Definition readlines (stream : list bytes) : list bytes :=
  fst (readlines_from [] stream).

Definition readlines_dropped (stream : list bytes) : bytes :=
  snd (readlines_from [] stream).

(** ** Decoding (lines 41, 110, 182) *)

Definition is_cont (b : Z) : bool := (128 <=? b) && (b <=? 191).

(** One well-formed UTF-8 sequence at the head of [s]: its code point and
    its length. *)
Definition utf8_head (s : bytes) : option (Z * nat) :=
  match s with
  | [] => None
  | b0 :: s1 =>
      if (0 <=? b0) && (b0 <=? 127) then Some (b0, 1%nat)
      else if (194 <=? b0) && (b0 <=? 223) then
        match s1 with
        | b1 :: _ =>
            if is_cont b1
            then Some (Z.lor (Z.shiftl (Z.land b0 31) 6) (Z.land b1 63), 2%nat)
            else None
        | _ => None
        end
      else if (224 <=? b0) && (b0 <=? 239) then
        match s1 with
        | b1 :: b2 :: _ =>
            if is_cont b1 && is_cont b2
               && (if b0 =? 224 then 160 <=? b1 else true)
               && (if b0 =? 237 then b1 <=? 159 else true)
            then Some (Z.lor (Z.shiftl (Z.land b0 15) 12)
                         (Z.lor (Z.shiftl (Z.land b1 63) 6) (Z.land b2 63)), 3%nat)
            else None
        | _ => None
        end
      else if (240 <=? b0) && (b0 <=? 244) then
        match s1 with
        | b1 :: b2 :: b3 :: _ =>
            if is_cont b1 && is_cont b2 && is_cont b3
               && (if b0 =? 240 then 144 <=? b1 else true)
               && (if b0 =? 244 then b1 <=? 143 else true)
            then Some (Z.lor (Z.shiftl (Z.land b0 7) 18)
                         (Z.lor (Z.shiftl (Z.land b1 63) 12)
                            (Z.lor (Z.shiftl (Z.land b2 63) 6) (Z.land b3 63))), 4%nat)
            else None
        | _ => None
        end
      else None
  end.

(** [raw.decode('utf-8', errors='ignore')]: well-formed sequences are
    decoded, every other octet is left out.  [skip] counts the octets of
    the last decoded sequence still to be passed over. *)
Fixpoint decode_from (skip : nat) (s : bytes) : str :=
  match s with
  | [] => []
  | _ :: s' =>
      match skip with
      | S n => decode_from n s'
      | O =>
          match utf8_head s with
          | Some (c, n) => c :: decode_from (n - 1) s'
          | None => decode_from 0 s'
          end
      end
  end.

Definition decode_ignore (s : bytes) : str := decode_from 0 s.

(** ** Notification throttle (lines 46, 54) *)

(** [round(x)] of a float [x], given by its exact value: the nearest
    integer, a tie going to the even one. *)
Definition py_round (x : Q) : Z :=
  let f := Qfloor x in
  match Qcompare (x - inject_Z f) (1 # 2) with
  | Lt => f
  | Gt => f + 1
  | Eq => if Z.even f then f else f + 1
  end.

(** [round(elapsed) % 5 == 0]. *)
Definition throttle_due (elapsed : Q) : bool := py_round elapsed mod 5 =? 0.

(** ** Paths and formatting *)

(** [os.path.join(a, b)] (posixpath). *)
Definition path_join (a b : str) : str :=
  match b with
  | 47 :: _ => b
  | _ =>
      match List.last a 47 with
      | 47 => a ++ b
      | _ => a ++ [47] ++ b
      end
  end.

(** [s.rfind(c)]: the highest index of [c] in [s], or [-1]. *)
Fixpoint rfind_from (c : Z) (i : Z) (found : Z) (s : str) : Z :=
  match s with
  | [] => found
  | x :: s' => rfind_from c (i + 1) (if x =? c then i else found) s'
  end.

Definition rfind (c : Z) (s : str) : Z := rfind_from c 0 (-1) s.

(** [os.path.splitext(p)]: the extension starts at the last dot of the
    last path component, unless only dots stand before it there. *)
Definition splitext (p : str) : str * str :=
  let sepIndex := rfind 47 p in
  let dotIndex := rfind 46 p in
  if (sepIndex <? dotIndex)
     && existsb (fun c => negb (c =? 46))
          (take (Z.to_nat (dotIndex - (sepIndex + 1))) (drop (Z.to_nat (sepIndex + 1)) p))
  then (take (Z.to_nat dotIndex) p, drop (Z.to_nat dotIndex) p)
  else (p, []).

(** [s.lstrip('.')]. *)
Definition lstrip_dots (s : str) : str := drop_while (fun c => c =? 46) s.

(** [str(n)] of an integer, as an f-string renders it. *)
Definition str_of_int (n : Z) : str :=
  lit (DecimalString.NilZero.string_of_int (Z.to_int n)).

(** [",".join(parts)]. *)
Fixpoint join_comma (parts : list str) : str :=
  match parts with
  | [] => []
  | [p] => p
  | p :: parts' => p ++ [44] ++ join_comma parts'
  end.

(** ** The registry (lines 15, 88, 97, 160, 169) *)

Inductive mux_type := soft | hard.

(** An entry [{'proc': ..., 'tasks': [...], 'type': ...}]; the process and
    the tasks are referred to by handles. *)
Record job := { proc : nat; tasks : list nat; type : mux_type }.

(** [running_jobs[job_id] = entry]. *)
Definition register (job_id : str) (entry : job) (reg : gmap (list Z) job)
  : gmap (list Z) job := <[job_id := entry]> reg.

(** [running_jobs.pop(job_id, None)]. *)
Definition unregister (job_id : str) (reg : gmap (list Z) job)
  : gmap (list Z) job := delete job_id reg.

(** What a holder of the registry finds under [job_id]. *)
Definition lookup_job (job_id : str) (reg : gmap (list Z) job) : option job :=
  reg !! job_id.

(** ** Effects *)

(** What a run of a coroutine is given and cannot change. *)
Record env := {
  DOWNLOAD_DIR : str;                       (* Config.DOWNLOAD_DIR *)
  user_settings : gmap (list Z) (list Z);   (* SettingsManager.get(msg.chat.id) *)
  uuid_hex8 : str;                          (* uuid.uuid4().hex[:8] *)
  tool_stderr : list bytes;                 (* the reads of the tool's stderr *)
  tool_returncode : Z;                      (* the tool's exit status *)
  elapsed_at : nat -> Q;                    (* n-th value of time.time() - start *)
  edit_raises : nat -> bool                 (* does the n-th msg.edit raise *)
}.

(** What a run reads and writes. *)
Record state := {
  running_jobs : gmap (list Z) job;   (* the module-level registry *)
  stderr_pipe : list bytes;           (* what proc.stderr still delivers *)
  returncode : option Z;              (* proc.returncode *)
  launched : list (list str);         (* argument vectors handed to exec *)
  edits : list str;                   (* texts passed to msg.edit, oldest first *)
  clock_reads : nat;                  (* evaluations of time.time() - start *)
  handles : nat                       (* handles given out so far *)
}.

Inductive exn := NotifierError.

Inductive outcome (A : Type) :=
| Returned (a : A)
| Raised (e : exn).
Arguments Returned {A} a.
Arguments Raised {A} e.

Definition M (A : Type) : Type := env -> state -> outcome A * state.

#[global] Instance M_ret : MRet M := fun A a _ s => (Returned a, s).

#[global] Instance M_bind : MBind M := fun A B f m e s =>
  match m e s with
  | (Returned a, s') => f a e s'
  | (Raised x, s') => (Raised x, s')
  end.

Definition ask : M env := fun e s => (Returned e, s).
Definition get : M state := fun _ s => (Returned s, s).
Definition put (s : state) : M unit := fun _ _ => (Returned tt, s).

(** [try: m except: pass]. *)
Definition try_pass (m : M unit) : M unit := fun e s =>
  match m e s with
  | (Raised _, s') => (Returned tt, s')
  | r => r
  end.

Definition set_running_jobs (r : gmap (list Z) job) (s : state) : state :=
  {| running_jobs := r; stderr_pipe := stderr_pipe s; returncode := returncode s;
     launched := launched s; edits := edits s; clock_reads := clock_reads s;
     handles := handles s |}.

Definition set_stderr_pipe (p : list bytes) (s : state) : state :=
  {| running_jobs := running_jobs s; stderr_pipe := p; returncode := returncode s;
     launched := launched s; edits := edits s; clock_reads := clock_reads s;
     handles := handles s |}.

Definition set_returncode (c : option Z) (s : state) : state :=
  {| running_jobs := running_jobs s; stderr_pipe := stderr_pipe s; returncode := c;
     launched := launched s; edits := edits s; clock_reads := clock_reads s;
     handles := handles s |}.

Definition set_launched (l : list (list str)) (s : state) : state :=
  {| running_jobs := running_jobs s; stderr_pipe := stderr_pipe s;
     returncode := returncode s; launched := l; edits := edits s;
     clock_reads := clock_reads s; handles := handles s |}.

Definition set_edits (l : list str) (s : state) : state :=
  {| running_jobs := running_jobs s; stderr_pipe := stderr_pipe s;
     returncode := returncode s; launched := launched s; edits := l;
     clock_reads := clock_reads s; handles := handles s |}.

Definition set_clock_reads (n : nat) (s : state) : state :=
  {| running_jobs := running_jobs s; stderr_pipe := stderr_pipe s;
     returncode := returncode s; launched := launched s; edits := edits s;
     clock_reads := n; handles := handles s |}.

Definition set_handles (n : nat) (s : state) : state :=
  {| running_jobs := running_jobs s; stderr_pipe := stderr_pipe s;
     returncode := returncode s; launched := launched s; edits := edits s;
     clock_reads := clock_reads s; handles := n |}.

(** [time.time() - start]. *)
Definition time_elapsed : M Q := fun e s =>
  (Returned (elapsed_at e (clock_reads s)), set_clock_reads (S (clock_reads s)) s).

(** [await msg.edit(text, parse_mode=ParseMode.HTML)]: the call is made,
    and raises when the Notifier fails. *)
Definition msg_edit (text : str) : M unit := fun e s =>
  let s' := set_edits (edits s ++ [text]) s in
  if edit_raises e (length (edits s)) then (Raised NotifierError, s')
  else (Returned tt, s').

Definition new_handle : M nat := fun _ s =>
  (Returned (handles s), set_handles (S (handles s)) s).

(** [await asyncio.create_subprocess_exec(...)] with both pipes captured,
    for a tool that starts.  A launch that raises ends the runner before
    line 85 (157); such runs are outside this embedding. *)
Definition create_subprocess_exec (argv : list str) : M nat :=
  e ← ask;
  s ← get;
  put (set_stderr_pipe (tool_stderr e) (set_returncode None
         (set_launched (launched s ++ [argv]) s)));;
  new_handle.

(** [await proc.wait()]. *)
Definition proc_wait : M unit :=
  e ← ask;
  s ← get;
  put (set_returncode (Some (tool_returncode e)) s).

(** [await proc.stderr.read()]: everything up to the end of the stream. *)
Definition stderr_read_all : M bytes :=
  s ← get;
  put (set_stderr_pipe [] s);;
  mret (concat (stderr_pipe s)).

(** ** Reading the tool's stderr (lines 38-58) *)

(** [prog.get(key, 'N/A')]. *)
Definition get_or_na (prog : gmap (list Z) (list Z)) (key : str) : str :=
  default (lit "N/A") (prog !! key).

(** The summary built at lines 47-52. *)
Definition progress_text (prog : gmap (list Z) (list Z)) : str :=
  [128260] ++ lit " <b>Progress</b>" ++ [10]
  ++ [8226] ++ lit " Size   : " ++ get_or_na prog (lit "size") ++ [10]
  ++ [8226] ++ lit " Time   : " ++ get_or_na prog (lit "time") ++ [10]
  ++ [8226] ++ lit " Speed  : " ++ get_or_na prog (lit "speed").

(** The body of the loop for one yielded line. *)
Definition on_line (raw : bytes) : M unit :=
  let line := decode_ignore raw in
  match parse_progress line with
  | None => mret tt
  | Some prog =>
      elapsed ← time_elapsed;
      let text := progress_text prog in
      if throttle_due elapsed then try_pass (msg_edit text) else mret tt
  end.

Fixpoint for_each {A} (body : A -> M unit) (l : list A) : M unit :=
  match l with
  | [] => mret tt
  | x :: l' => body x;; for_each body l'
  end.

(** [read_stderr]: the lines of [readlines(process.stderr)], one by one.
    The generator leaves the stream at its end. *)
Definition read_stderr : M unit :=
  s ← get;
  put (set_stderr_pipe [] s);;
  for_each on_line (readlines (stderr_pipe s)).

(** ** The runners (lines 63-113 and 118-185) *)

(** What a runner hands back: [output] or [False]. *)
Inductive pyval :=
| PyStr (s : str)
| PyBool (b : bool).

Definition started_text (label job_id : str) : str :=
  [128260] ++ lit " " ++ label ++ lit " job started (<code>" ++ job_id
  ++ lit "</code>)" ++ [10]
  ++ lit "Send <code>/cancel " ++ job_id ++ lit "</code> to abort".

Definition completed_text (label job_id : str) (elapsed : Q) : str :=
  [9989] ++ lit " " ++ label ++ lit " `" ++ job_id ++ lit "` completed in "
  ++ str_of_int (py_round elapsed) ++ lit "s".

Definition error_text (label : str) (err : bytes) : str :=
  [10060] ++ lit " Error during " ++ label ++ lit "!" ++ [10; 10]
  ++ lit "<pre>" ++ decode_ignore err ++ lit "</pre>".

(** [running_jobs[job_id] = entry] and [running_jobs.pop(job_id, None)] on
    the module-level dictionary. *)
Definition register_job (job_id : str) (entry : job) : M unit :=
  s ← get;
  put (set_running_jobs (register job_id entry (running_jobs s)) s).

Definition unregister_job (job_id : str) : M unit :=
  s ← get;
  put (set_running_jobs (unregister job_id (running_jobs s)) s).

(** Lines 85-113 and 157-185, which the two runners share but for the
    entry's type and the wording.  [asyncio.wait([reader, waiter])] is over
    when [read_stderr] has returned and the exit status is in, so a run
    that gets past line 96 (168) has seen the whole of both tasks, in
    whatever order they took their turns.  When the [msg.edit] of line 90
    (162) raises, the runner ends there with the job registered; the two
    tasks exist by then and go on by themselves, and how far they have
    come at that moment is a matter of scheduling, followed by [fire]
    below and not by the state returned here. *)
Definition run_job (kind : mux_type) (started completed failed : str)
    (proc : nat) (output : str) : M pyval :=
  e ← ask;
  let job_id := uuid_hex8 e in
  reader ← new_handle;
  waiter ← new_handle;
  register_job job_id {| proc := proc; tasks := [reader; waiter]; type := kind |};;
  msg_edit (started_text started job_id);;
  read_stderr;;
  proc_wait;;
  unregister_job job_id;;
  s ← get;
  match returncode s with
  | Some 0 =>
      elapsed ← time_elapsed;
      msg_edit (completed_text completed job_id elapsed);;
      mret (PyStr output)
  | _ =>
      err ← stderr_read_all;
      msg_edit (error_text failed err);;
      mret (PyBool false)
  end.

Definition softmux_argv (vid_path sub_path sub_ext out_path : str) : list str :=
  [lit "ffmpeg"; lit "-hide_banner";
   lit "-i"; vid_path;
   lit "-i"; sub_path;
   lit "-map"; lit "1:0"; lit "-map"; lit "0";
   lit "-disposition:s:0"; lit "default";
   lit "-c:v"; lit "copy"; lit "-c:a"; lit "copy";
   lit "-c:s"; sub_ext;
   lit "-y"; out_path].

Definition softmux_vid (vid_filename sub_filename : str) : M pyval :=
  e ← ask;
  let vid_path := path_join (DOWNLOAD_DIR e) vid_filename in
  let sub_path := path_join (DOWNLOAD_DIR e) sub_filename in
  let base := (splitext vid_filename).1 in
  let output := base ++ lit "_soft.mkv" in
  let out_path := path_join (DOWNLOAD_DIR e) output in
  let sub_ext := lstrip_dots (splitext sub_filename).2 in
  proc ← create_subprocess_exec (softmux_argv vid_path sub_path sub_ext out_path);
  run_job soft (lit "Soft-mux") (lit "Soft-Mux") (lit "soft-mux") proc output.

(** [cfg.get(key, fallback)]. *)
Definition cfg_get (cfg : gmap (list Z) (list Z)) (key fallback : str) : str :=
  default fallback (cfg !! key).

(** The filter list [vf] of lines 131-135. *)
Definition hardmux_filters (cfg : gmap (list Z) (list Z)) (sub_path : str) : list str :=
  let res := cfg_get cfg (lit "resolution") (lit "1920:1080") in
  let fps := cfg_get cfg (lit "fps") (lit "original") in
  [lit "subtitles=" ++ sub_path]
  ++ (if decide (res = lit "original") then [] else [lit "scale=" ++ res])
  ++ (if decide (fps = lit "original") then [] else [lit "fps=" ++ fps]).

Definition hardmux_argv (cfg : gmap (list Z) (list Z)) (vid_path sub_path out_path : str)
  : list str :=
  let codec := cfg_get cfg (lit "codec") (lit "libx264") in
  let crf := cfg_get cfg (lit "crf") (lit "27") in
  let preset := cfg_get cfg (lit "preset") (lit "faster") in
  let vf_arg := join_comma (hardmux_filters cfg sub_path) in
  [lit "ffmpeg"; lit "-hide_banner";
   lit "-i"; vid_path;
   lit "-vf"; vf_arg;
   lit "-c:v"; codec;
   lit "-preset"; preset;
   lit "-crf"; crf;
   lit "-map"; lit "0:v:0";
   lit "-map"; lit "0:a:0?";
   lit "-c:a"; lit "copy";
   lit "-y"; out_path].

Definition hardmux_vid (vid_filename sub_filename : str) : M pyval :=
  e ← ask;
  let cfg := user_settings e in
  let vid_path := path_join (DOWNLOAD_DIR e) vid_filename in
  let sub_path := path_join (DOWNLOAD_DIR e) sub_filename in
  let base := (splitext vid_filename).1 in
  let output := base ++ lit "_hard.mp4" in
  let out_path := path_join (DOWNLOAD_DIR e) output in
  proc ← create_subprocess_exec (hardmux_argv cfg vid_path sub_path out_path);
  run_job hard (lit "Hard-mux") (lit "Hard-Mux") (lit "hard-mux") proc output.

(** ** Jobs running side by side

    Several runners share [running_jobs].  A runner gives up control only
    at its [await]s, so between two of them it acts as one step.  What a
    runner does to the registry is the assignment of line 88 (160) and the
    [pop] of line 97 (169); the latter is reached once [asyncio.wait] has
    seen both tasks finish, and never when the [msg.edit] of line 90 (162)
    raised. *)

Inductive phase :=
| Starting      (* before line 88: nothing registered yet *)
| Announcing    (* registered, awaiting the msg.edit of line 90 *)
| Waiting       (* awaiting asyncio.wait([reader, waiter]) *)
| Finished      (* past the pop of line 97 *)
| Aborted.      (* the msg.edit of line 90 raised *)

Record activity := {
  job_id : str;
  entry : job;
  phase_of : phase;
  reader_done : bool;
  waiter_done : bool
}.

Record system := {
  registry : gmap (list Z) job;
  activities : list activity
}.

Inductive action :=
| Register (i : nat)
| Announced (i : nat)
| AnnounceFailed (i : nat)
| ReaderDone (i : nat)
| WaiterDone (i : nat)
| Unregister (i : nat).

Definition set_phase (p : phase) (a : activity) : activity :=
  {| job_id := job_id a; entry := entry a; phase_of := p;
     reader_done := reader_done a; waiter_done := waiter_done a |}.

Definition set_reader_done (a : activity) : activity :=
  {| job_id := job_id a; entry := entry a; phase_of := phase_of a;
     reader_done := true; waiter_done := waiter_done a |}.

Definition set_waiter_done (a : activity) : activity :=
  {| job_id := job_id a; entry := entry a; phase_of := phase_of a;
     reader_done := reader_done a; waiter_done := true |}.

(** The tasks exist from line 86 on and run whatever becomes of the runner. *)
Definition tasks_started (p : phase) : bool :=
  match p with
  | Starting => false
  | _ => true
  end.

(** The job is under way as far as its runner is concerned. *)
Definition live (p : phase) : bool :=
  match p with
  | Announcing | Waiting => true
  | _ => false
  end.

Definition update (i : nat) (a : activity) (r : gmap (list Z) job) (sys : system)
  : system :=
  {| registry := r; activities := <[i := a]> (activities sys) |}.

(** One step of the runner (or of a task) of the [i]-th job, when it is
    enabled. *)
Definition fire (act : action) (sys : system) : option system :=
  match act with
  | Register i =>
      a ← activities sys !! i;
      match phase_of a with
      | Starting =>
          Some (update i (set_phase Announcing a)
                  (register (job_id a) (entry a) (registry sys)) sys)
      | _ => None
      end
  | Announced i =>
      a ← activities sys !! i;
      match phase_of a with
      | Announcing => Some (update i (set_phase Waiting a) (registry sys) sys)
      | _ => None
      end
  | AnnounceFailed i =>
      a ← activities sys !! i;
      match phase_of a with
      | Announcing => Some (update i (set_phase Aborted a) (registry sys) sys)
      | _ => None
      end
  | ReaderDone i =>
      a ← activities sys !! i;
      if tasks_started (phase_of a)
      then Some (update i (set_reader_done a) (registry sys) sys)
      else None
  | WaiterDone i =>
      a ← activities sys !! i;
      if tasks_started (phase_of a)
      then Some (update i (set_waiter_done a) (registry sys) sys)
      else None
  | Unregister i =>
      a ← activities sys !! i;
      match phase_of a with
      | Waiting =>
          if reader_done a && waiter_done a
          then Some (update i (set_phase Finished a)
                       (unregister (job_id a) (registry sys)) sys)
          else None
      | _ => None
      end
  end.

Fixpoint run (acts : list action) (sys : system) : option system :=
  match acts with
  | [] => Some sys
  | act :: acts' => sys' ← fire act sys; run acts' sys'
  end.

(** The process at start: an empty registry, and the jobs to come, each
    with the identifier it will draw and the entry it will store. *)
Definition initial (jobs : list (str * job)) : system :=
  {| registry := ∅;
     activities :=
       map (fun j => {| job_id := j.1; entry := j.2; phase_of := Starting;
                        reader_done := false; waiter_done := false |}) jobs |}.

(** ** Notions the properties are stated with *)

(** [field=value] stands at offset [i] of [line]: one of the six names,
    blanks, [=], blanks, and a token [v] free of white space that ends at
    a blank or at the end of the line. *)
Definition occurs_at (line : str) (i : nat) (k v : str) : Prop :=
  k ∈ progress_fields /\
  exists ws1 ws2 rest : str,
    drop i line = k ++ ws1 ++ [61] ++ ws2 ++ v ++ rest /\
    Forall (fun c => is_space c = true) ws1 /\
    Forall (fun c => is_space c = true) ws2 /\
    v <> [] /\
    Forall (fun c => is_space c = false) v /\
    match rest with
    | [] => True
    | c :: _ => is_space c = true
    end.

(** The same, with the number [n] of characters it takes, from the first
    letter of the name to the last character of the token. *)
Definition spans_at (line : str) (i n : nat) (k v : str) : Prop :=
  k ∈ progress_fields /\
  exists ws1 ws2 rest : str,
    drop i line = k ++ ws1 ++ [61] ++ ws2 ++ v ++ rest /\
    Forall (fun c => is_space c = true) ws1 /\
    Forall (fun c => is_space c = true) ws2 /\
    v <> [] /\
    Forall (fun c => is_space c = false) v /\
    match rest with
    | [] => True
    | c :: _ => is_space c = true
    end /\
    n = (length k + length ws1 + 1 + length ws2 + length v)%nat.

(** A match reported by a scan: where it starts, how many characters it
    takes, and its two groups. *)
Record hit := { hit_pos : nat; hit_len : nat; hit_key : str; hit_val : str }.

(** The same match, seen from one character further to the left. *)
Definition shift_hit (h : hit) : hit :=
  {| hit_pos := S (hit_pos h); hit_len := hit_len h;
     hit_key := hit_key h; hit_val := hit_val h |}.

(** Matches that follow one another from offset [lo] on, none starting
    before the one before it has ended. *)
Fixpoint in_a_row (lo : nat) (hits : list hit) : Prop :=
  match hits with
  | [] => True
  | h :: hits' =>
      (lo <= hit_pos h)%nat /\ (1 <= hit_len h)%nat
      /\ in_a_row (hit_pos h + hit_len h) hits'
  end.

(** The summaries [read_stderr] passes to [msg.edit] for the given lines,
    the clock having been read [n] times before: one for each line that
    parses and falls on a multiple of five seconds. *)
Fixpoint due_texts (clock : nat -> Q) (n : nat) (lines : list bytes) : list str :=
  match lines with
  | [] => []
  | raw :: lines' =>
      match parse_progress (decode_ignore raw) with
      | None => due_texts clock n lines'
      | Some prog =>
          (if throttle_due (clock n) then [progress_text prog] else [])
          ++ due_texts clock (S n) lines'
      end
  end.

(** How many of the lines parse, that is, how often the clock is read. *)
Definition parsed_count (lines : list bytes) : nat :=
  length (filter (fun raw => is_Some (parse_progress (decode_ignore raw))) lines).

(** The text a returned value carries, if it is one. *)
Definition carried_text (v : pyval) : option str :=
  match v with
  | PyStr s => Some s
  | PyBool _ => None
  end.

(** The places, among all the calls of [msg.edit] of a run, of the two a
    runner makes itself: the announcement of line 90 (162), and the final
    report of line 100 or 108 (172 or 180), which comes after the
    summaries of [read_stderr]. *)
Definition announce_slot (s : state) : nat := length (edits s).

Definition report_slot (e : env) (s : state) : nat :=
  length (edits s) + 1
  + length (due_texts (elapsed_at e) (clock_reads s) (readlines (tool_stderr e))).

(** ** Sample runs *)

(** A fresh process: nothing registered, nothing launched, no edit made. *)
Definition idle_state : state :=
  {| running_jobs := ∅; stderr_pipe := []; returncode := None; launched := [];
     edits := []; clock_reads := 0; handles := 0 |}.

(** A tool that writes [reads] to its stderr and exits with [code], for a
    user without stored settings, the clock advancing by half a second per
    reading, and a Notifier that fails where [raises] says. *)
Definition sample_env (reads : list bytes) (code : Z) (raises : nat -> bool) : env :=
  {| DOWNLOAD_DIR := lit "downloads";
     user_settings := ∅;
     uuid_hex8 := lit "1a2b3c4d";
     tool_stderr := reads;
     tool_returncode := code;
     elapsed_at := fun n => Z.of_nat n # 2;
     edit_raises := raises |}.

(** Three progress lines, overwritten in place, and the end of the stream. *)
Definition sample_progress : list bytes :=
  [lit "frame=  10 fps= 25 size=     256kB time=00:00:00.40 bitrate=5242.9kbits/s speed=0.8x" ++ [13];
   lit "frame=  20 fps= 25 size=     512kB time=00:00:00.80 bitrate=5242.9kbits/s speed=0.8x" ++ [13]
   ++ lit "frame=  30 fps= 25 size=     768kB time=00:00:01.20 bitrate=5242.9kbits/s speed=0.8x" ++ [13];
   []].

(** An error message, and the end of the stream. *)
Definition sample_failure : list bytes :=
  [lit "subs.srt: No such file or directory" ++ [10]; []].

Definition never (_ : nat) : bool := false.

(** What the registry holds for each job, by the phase of its runner; a
    runner is past its [pop] only with both of its tasks done. *)
Definition consistent (sys : system) : Prop :=
  forall i a, activities sys !! i = Some a ->
    match phase_of a with
    | Starting => registry sys !! job_id a = None
    | Finished =>
        registry sys !! job_id a = None
        /\ reader_done a = true /\ waiter_done a = true
    | Announcing | Waiting | Aborted => registry sys !! job_id a = Some (entry a)
    end.

(** The [i]-th job is the only one to draw [jid]: the registry holds under
    [jid] what the phase of that job's runner tells, whatever the other
    jobs draw and do. *)
Definition tracked (i : nat) (jid : str) (ent : job) (sys : system) : Prop :=
  (exists a, activities sys !! i = Some a /\ job_id a = jid /\ entry a = ent /\
     match phase_of a with
     | Starting => registry sys !! jid = None
     | Finished =>
         registry sys !! jid = None /\ reader_done a = true /\ waiter_done a = true
     | Announcing | Waiting | Aborted => registry sys !! jid = Some ent
     end) /\
  (forall j b, j <> i -> activities sys !! j = Some b -> job_id b <> jid).

(** A progress line as the tool prints it: for each field its name, [=],
    a number of blanks, its value, and a blank. *)
Definition print_fields (fields : list (str * nat * str)) : str :=
  concat (map (fun f => f.1.1 ++ [61] ++ replicate f.1.2 32 ++ f.2 ++ [32]) fields).

(** * Properties *)
(** ** Lists *)

Lemma take_drop_while {A} (p : A -> bool) (l : list A) :
  take_while p l ++ drop_while p l = l.
Proof.
  induction l as [|x l IH]; simpl; [done|].
  destruct (p x); simpl; [by rewrite IH | done].
Qed.

Lemma take_while_Forall {A} (p : A -> bool) (l : list A) :
  Forall (fun x => p x = true) (take_while p l).
Proof.
  induction l as [|x l IH]; simpl; [constructor|].
  destruct (p x) eqn:Hx; [by constructor | constructor].
Qed.

Lemma drop_while_head {A} (p : A -> bool) (l : list A) x r :
  drop_while p l = x :: r -> p x = false.
Proof.
  induction l as [|y l IH]; simpl; [done|].
  destruct (p y) eqn:Hy; [done|]. by intros [= -> ->].
Qed.

Lemma drop_while_app {A} (p : A -> bool) (a b : list A) :
  Forall (fun x => p x = true) a ->
  match b with [] => True | x :: _ => p x = false end ->
  drop_while p (a ++ b) = b.
Proof.
  induction 1 as [|x a Hx _ IH]; simpl; intros Hb.
  - destruct b as [|y b]; simpl; [done|]. by rewrite Hb.
  - rewrite Hx. by apply IH.
Qed.

Lemma take_while_app {A} (p : A -> bool) (a b : list A) :
  Forall (fun x => p x = true) a ->
  match b with [] => True | x :: _ => p x = false end ->
  take_while p (a ++ b) = a.
Proof.
  induction 1 as [|x a Hx _ IH]; simpl; intros Hb.
  - destruct b as [|y b]; simpl; [done|]. by rewrite Hb.
  - rewrite Hx. f_equal. by apply IH.
Qed.

Lemma strip_prefix_Some (p s r : list Z) :
  strip_prefix p s = Some r <-> s = p ++ r.
Proof.
  revert s. induction p as [|a p IH]; intros s; simpl.
  - split; [by intros [= ->] | by intros ->].
  - destruct s as [|b s]; [split; [done | discriminate]|].
    destruct (Z.eqb_spec a b) as [->|Hne].
    + rewrite IH. split; [by intros -> | by intros [= ->]].
    + split; [done | intros [= -> _]; done].
Qed.

(** ** The progress pattern *)

Lemma non_space_Forall (v : list Z) :
  Forall (fun c => non_space c = true) v <-> Forall (fun c => is_space c = false) v.
Proof.
  apply Forall_proper; [|done]. intros c. unfold non_space.
  destruct (is_space c); simpl; split; congruence.
Qed.

Lemma is_space_61 : is_space 61 = false.
Proof. reflexivity. Qed.

(** [match_value] finds exactly the shape [ws = ws v] with [v] a maximal token. *)
Lemma match_value_Some (r v : list Z) (n : nat) :
  match_value r = Some (v, n) ->
  exists ws1 ws2 rest,
    r = ws1 ++ [61] ++ ws2 ++ v ++ rest /\
    Forall (fun c => is_space c = true) ws1 /\
    Forall (fun c => is_space c = true) ws2 /\
    v <> [] /\
    Forall (fun c => is_space c = false) v /\
    match rest with [] => True | c :: _ => is_space c = true end /\
    n = (length ws1 + 1 + length ws2 + length v)%nat.
Proof.
  unfold match_value. intros H.
  pose proof (take_drop_while is_space r) as Hr.
  destruct (drop_while is_space r) as [|c r3] eqn:Hd; [done|].
  destruct (Z.eqb_spec c 61) as [->|]; [|done].
  pose proof (take_drop_while is_space r3) as Hr3.
  pose proof (take_drop_while non_space (drop_while is_space r3)) as Hr4.
  destruct (take_while non_space (drop_while is_space r3)) as [|c0 v0] eqn:Hv; [done|].
  injection H as <- <-.
  exists (take_while is_space r), (take_while is_space r3),
    (drop_while non_space (drop_while is_space r3)).
  repeat split.
  - simpl in *. by rewrite Hr4, Hr3.
  - apply take_while_Forall.
  - apply take_while_Forall.
  - done.
  - apply non_space_Forall. rewrite <- Hv. apply take_while_Forall.
  - destruct (drop_while non_space (drop_while is_space r3)) as [|x rest] eqn:Hrest; [done|].
    apply drop_while_head in Hrest. unfold non_space in Hrest.
    by destruct (is_space x).
  - apply (f_equal length) in Hr, Hr3. rewrite length_app in Hr, Hr3.
    simpl in *. lia.
Qed.

Lemma match_value_shape (ws1 ws2 v rest : list Z) :
  Forall (fun c => is_space c = true) ws1 ->
  Forall (fun c => is_space c = true) ws2 ->
  v <> [] ->
  Forall (fun c => is_space c = false) v ->
  match rest with [] => True | c :: _ => is_space c = true end ->
  match_value (ws1 ++ [61] ++ ws2 ++ v ++ rest)
  = Some (v, (length ws1 + 1 + length ws2 + length v)%nat).
Proof.
  intros H1 H2 Hv Hns Hrest. unfold match_value.
  rewrite (drop_while_app is_space ws1 ([61] ++ ws2 ++ v ++ rest)); [|done|done].
  simpl.
  assert (Hhead : match v ++ rest with [] => True | x :: _ => is_space x = false end).
  { destruct v as [|c v]; [done|]. simpl. by inversion Hns. }
  rewrite (drop_while_app is_space ws2 (v ++ rest)); [|done|done].
  rewrite (take_while_app non_space v rest).
  - destruct v as [|c v]; [done|]. do 2 f_equal.
    repeat (rewrite length_app; simpl). lia.
  - by apply non_space_Forall.
  - destruct rest as [|x rest]; [done|]. unfold non_space. by rewrite Hrest.
Qed.

Lemma fields_prefix_free (k k' r : list Z) :
  k ∈ progress_fields -> k' ∈ progress_fields -> k' <> k ->
  strip_prefix k' (k ++ r) = None.
Proof.
  unfold progress_fields. rewrite !elem_of_cons, !elem_of_nil.
  intros Hk Hk' Hne.
  destruct Hk as [->|[->|[->|[->|[->|[->|[]]]]]]];
    destruct Hk' as [->|[->|[->|[->|[->|[->|[]]]]]]];
    first [done | reflexivity].
Qed.

Lemma match_alternatives_Some (alts : list (list Z)) (s k v : list Z) (n : nat) :
  match_alternatives alts s = Some (k, v, n) ->
  k ∈ alts /\ exists r m, s = k ++ r /\ match_value r = Some (v, m)
                          /\ n = (length k + m)%nat.
Proof.
  induction alts as [|k0 alts IH]; simpl; [done|].
  destruct (strip_prefix k0 s) as [r|] eqn:Hp.
  - destruct (match_value r) as [[v0 m]|] eqn:Hm.
    + intros [= <- <- <-]. split; [left|].
      exists r, m. by apply strip_prefix_Some in Hp.
    + intros H. destruct (IH H) as [Hin Hex]. split; [by right | done].
  - intros H. destruct (IH H) as [Hin Hex]. split; [by right | done].
Qed.

Lemma match_alternatives_complete (alts : list (list Z)) (k r v : list Z) (m : nat) :
  k ∈ alts ->
  (forall k', k' ∈ alts -> k' <> k -> strip_prefix k' (k ++ r) = None) ->
  match_value r = Some (v, m) ->
  match_alternatives alts (k ++ r) = Some (k, v, (length k + m)%nat).
Proof.
  intros Hin Hfree Hm. induction alts as [|k0 alts IH]; [by apply elem_of_nil in Hin|].
  simpl. destruct (decide (k0 = k)) as [->|Hne].
  - assert (Hp : strip_prefix k (k ++ r) = Some r) by by apply strip_prefix_Some.
    by rewrite Hp, Hm.
  - rewrite (Hfree k0); [|by left|done].
    apply IH.
    + apply elem_of_cons in Hin as [->|Hin]; done.
    + intros k' Hk'. apply Hfree. by right.
Qed.

Lemma occurs_at_drop (line : list Z) (i : nat) (k v : list Z) :
  occurs_at line i k v <-> occurs_at (drop i line) 0 k v.
Proof. unfold occurs_at. by rewrite drop_0. Qed.

Lemma match_here_occurs (s k v : list Z) (n : nat) :
  match_here s = Some (k, v, n) -> occurs_at s 0 k v.
Proof.
  intros H. apply match_alternatives_Some in H as (Hin & r & m & -> & Hm & _).
  apply match_value_Some in Hm as (ws1 & ws2 & rest & -> & H1 & H2 & Hv & Hns & Hrest & _).
  split; [done|]. exists ws1, ws2, rest. by rewrite drop_0.
Qed.

Lemma occurs_match_here (s k v : list Z) :
  occurs_at s 0 k v -> exists n, match_here s = Some (k, v, n).
Proof.
  intros (Hin & ws1 & ws2 & rest & Hs & H1 & H2 & Hv & Hns & Hrest).
  rewrite drop_0 in Hs. subst s. eexists. unfold match_here.
  apply match_alternatives_complete; [done| |by apply match_value_shape].
  intros k' Hk' Hne. by apply fields_prefix_free.
Qed.

Lemma match_here_nil : match_here [] = None.
Proof. reflexivity. Qed.

Lemma spans_occurs (line : list Z) (i n : nat) (k v : list Z) :
  spans_at line i n k v -> occurs_at line i k v.
Proof.
  intros (Hin & ws1 & ws2 & rest & H & H1 & H2 & Hv & Hns & Hrest & _).
  split; [done|]. by exists ws1, ws2, rest.
Qed.

Lemma occurs_at_nil (i : nat) (k v : list Z) : ~ occurs_at [] i k v.
Proof.
  intros (_ & ws1 & ws2 & rest & H & _). rewrite drop_nil in H.
  apply (f_equal length) in H. repeat (rewrite length_app in H; simpl in H). lia.
Qed.

Lemma match_here_spans (s k v : list Z) (n : nat) :
  match_here s = Some (k, v, n) -> spans_at s 0 n k v /\ (1 <= n)%nat.
Proof.
  intros H. apply match_alternatives_Some in H as (Hin & r & m & -> & Hm & ->).
  apply match_value_Some in Hm as (ws1 & ws2 & rest & -> & H1 & H2 & Hv & Hns & Hrest & ->).
  split; [|lia]. split; [done|]. exists ws1, ws2, rest. rewrite drop_0.
  repeat split; try done. lia.
Qed.

Lemma occurs_at_unique (line : list Z) (i : nat) (k v k' v' : list Z) :
  occurs_at line i k v -> occurs_at line i k' v' -> k' = k /\ v' = v.
Proof.
  intros [n Hn]%occurs_at_drop%occurs_match_here [n' Hn']%occurs_at_drop%occurs_match_here.
  rewrite Hn in Hn'. by injection Hn' as <- <- _.
Qed.

(** ** The scan *)

Lemma findall_from_none (s : list Z) :
  (forall i, match_here (drop i s) = None) -> forall n, findall_from n s = [].
Proof.
  induction s as [|x s IH]; intros Hnone n; simpl; [done|].
  assert (Hs : forall i, match_here (drop i s) = None) by (intros i; apply (Hnone (S i))).
  destruct n as [|n]; [|by apply IH].
  pose proof (Hnone 0%nat) as H0. rewrite drop_0 in H0. rewrite H0. by apply IH.
Qed.

Lemma findall_from_nil_inv (s : list Z) :
  findall_from 0 s = [] -> forall i, match_here (drop i s) = None.
Proof.
  induction s as [|x s IH]; simpl; intros H i.
  - by rewrite drop_nil.
  - destruct (match_here (x :: s)) as [[[k v] n]|] eqn:Hm; [done|].
    destruct i as [|i]; [done|]. by apply IH.
Qed.

Lemma in_a_row_weaken (lo lo' : nat) (hits : list hit) :
  (lo' <= lo)%nat -> in_a_row lo hits -> in_a_row lo' hits.
Proof. destruct hits as [|h hits]; simpl; [done|]. intros ? (? & ? & ?). repeat split; [lia|done..]. Qed.

Lemma in_a_row_shift (lo : nat) (hits : list hit) :
  in_a_row lo hits -> in_a_row (S lo) ((shift_hit <$> hits)).
Proof.
  revert lo. induction hits as [|h hits IH]; intros lo; simpl; [done|].
  intros (H1 & H2 & H3). repeat split; [lia|done|]. by apply (IH _ H3).
Qed.

Lemma in_a_row_lower (lo : nat) (hits : list hit) (h : hit) :
  in_a_row lo hits -> h ∈ hits -> (lo <= hit_pos h)%nat.
Proof.
  revert lo. induction hits as [|h0 hits IH]; intros lo; simpl; [by intros _ ?%elem_of_nil|].
  intros (H1 & H2 & H3) [->|Hin]%elem_of_cons; [done|].
  pose proof (IH _ H3 Hin). lia.
Qed.

Lemma in_a_row_app (lo : nat) (before after : list hit) (h : hit) :
  in_a_row lo (before ++ h :: after) ->
  (forall h', h' ∈ before -> (hit_pos h' < hit_pos h)%nat) /\
  (forall h', h' ∈ after -> (hit_pos h < hit_pos h')%nat).
Proof.
  revert lo. induction before as [|h0 before IH]; intros lo; simpl.
  - intros (H1 & H2 & H3). split; [by intros ? ?%elem_of_nil|].
    intros h' Hin. pose proof (in_a_row_lower _ _ _ H3 Hin). lia.
  - intros (H1 & H2 & H3). destruct (IH _ H3) as [Hb Ha]. split; [|done].
    intros h' [->|Hin]%elem_of_cons; [|by apply Hb].
    assert (Hh : h ∈ before ++ h :: after) by (apply elem_of_app; right; by left).
    pose proof (in_a_row_lower _ _ _ H3 Hh). lia.
Qed.

(** The scan from any offset: its matches stand in the text one after the
    other, and it passes over an occurrence only inside a match. *)
Lemma findall_from_hits (s : list Z) (skip : nat) :
  exists hits : list hit,
    in_a_row skip hits /\
    Forall (fun h => spans_at s (hit_pos h) (hit_len h) (hit_key h) (hit_val h)) hits /\
    (forall j k v, (skip <= j)%nat -> occurs_at s j k v ->
       (exists h, h ∈ hits /\ hit_pos h = j /\ hit_key h = k /\ hit_val h = v) \/
       (exists h, h ∈ hits /\ (hit_pos h < j < hit_pos h + hit_len h)%nat)) /\
    findall_from skip s = (fun h => (hit_key h, hit_val h)) <$> hits.
Proof.
  revert skip. induction s as [|c s IH]; intros skip.
  { exists []. repeat split; [constructor|]. intros j k v _ H. by apply occurs_at_nil in H. }
  assert (Hshift : forall m hits,
            in_a_row m hits ->
            Forall (fun h => spans_at s (hit_pos h) (hit_len h) (hit_key h) (hit_val h)) hits ->
            (forall j k v, (m <= j)%nat -> occurs_at s j k v ->
               (exists h, h ∈ hits /\ hit_pos h = j /\ hit_key h = k /\ hit_val h = v) \/
               (exists h, h ∈ hits /\ (hit_pos h < j < hit_pos h + hit_len h)%nat)) ->
            in_a_row (S m) ((shift_hit <$> hits)) /\
            Forall (fun h => spans_at (c :: s) (hit_pos h) (hit_len h) (hit_key h) (hit_val h))
              ((shift_hit <$> hits)) /\
            (forall j k v, (S m <= j)%nat -> occurs_at (c :: s) j k v ->
               (exists h, h ∈ (shift_hit <$> hits) /\ hit_pos h = j /\ hit_key h = k
                          /\ hit_val h = v) \/
               (exists h, h ∈ (shift_hit <$> hits)
                          /\ (hit_pos h < j < hit_pos h + hit_len h)%nat))).
  { intros m hits Hrow Hsp Hcov. split; [by apply in_a_row_shift|]. split.
    - apply Forall_fmap. eapply Forall_impl; [exact Hsp|]. by intros h Hh.
    - intros j k v Hj Hocc. destruct j as [|j]; [lia|].
      destruct (Hcov j k v ltac:(lia) Hocc) as [(h & Hin & <- & <- & <-) | (h & Hin & Hlt)].
      + left. exists (shift_hit h). split; [by apply list_elem_of_fmap_2|done].
      + right. exists (shift_hit h). split; [by apply list_elem_of_fmap_2|]. simpl. lia. }
  assert (Hmap : forall hits : list hit,
            (fun h => (hit_key h, hit_val h)) <$> (shift_hit <$> hits)
            = (fun h => (hit_key h, hit_val h)) <$> hits).
  { intros hits. rewrite <- list_fmap_compose. done. }
  destruct skip as [|m].
  - simpl. destruct (match_here (c :: s)) as [[[k0 v0] n]|] eqn:Hm.
    + destruct (match_here_spans _ _ _ _ Hm) as [Hsp0 Hn].
      destruct (IH (n - 1)%nat) as (hits & Hrow & Hsp & Hcov & Heq).
      destruct (Hshift _ _ Hrow Hsp Hcov) as (Hrow' & Hsp' & Hcov').
      exists ({| hit_pos := 0; hit_len := n; hit_key := k0; hit_val := v0 |}
              :: (shift_hit <$> hits)).
      split; [|split; [|split]].
      * simpl. repeat split; [lia..|]. by replace n with (S (n - 1)) at 1 by lia.
      * by constructor.
      * intros j k v _ Hocc. destruct j as [|j].
        -- left. eexists. split; [by left|]. simpl.
           pose proof (match_here_occurs _ _ _ _ Hm) as H0.
           destruct (occurs_at_unique _ _ _ _ _ _ H0 Hocc) as [-> ->]. done.
        -- destruct (decide (S (n - 1) <= S j)%nat) as [Hge|Hlt].
           ++ destruct (Hcov' (S j) k v Hge Hocc) as [(h & Hin & Hh) | (h & Hin & Hh)].
              ** left. exists h. split; [by right|done].
              ** right. exists h. split; [by right|done].
           ++ right. eexists. split; [by left|]. simpl. lia.
      * rewrite Heq. simpl. by rewrite Hmap.
    + destruct (IH 0%nat) as (hits & Hrow & Hsp & Hcov & Heq).
      destruct (Hshift _ _ Hrow Hsp Hcov) as (Hrow' & Hsp' & Hcov').
      exists ((shift_hit <$> hits)). split; [|split; [|split]].
      * apply (in_a_row_weaken 1); [lia|done].
      * done.
      * intros j k v _ Hocc. destruct j as [|j]; [|apply Hcov'; [lia|done]].
        apply occurs_match_here in Hocc as [n Hn]. congruence.
      * by rewrite Heq, Hmap.
  - simpl. destruct (IH m) as (hits & Hrow & Hsp & Hcov & Heq).
    destruct (Hshift _ _ Hrow Hsp Hcov) as (Hrow' & Hsp' & Hcov').
    exists ((shift_hit <$> hits)). repeat split; [done..|]. by rewrite Heq, Hmap.
Qed.

(** ** The dictionary of the matches *)

Lemma fold_pairs_notin (ps : list (list Z * list Z)) (d : gmap (list Z) (list Z)) (k : list Z) :
  k ∉ ps.*1 -> fold_left put_pair ps d !! k = d !! k.
Proof.
  revert d. induction ps as [|[k0 v0] ps IH]; intros d Hk; simpl; [done|].
  rewrite fmap_cons, not_elem_of_cons in Hk. destruct Hk as [Hne Hk].
  rewrite IH by done. unfold put_pair. simpl. by rewrite lookup_insert_ne.
Qed.

Lemma fold_pairs_last (ps1 ps2 : list (list Z * list Z)) (d : gmap (list Z) (list Z))
    (k v : list Z) :
  k ∉ ps2.*1 -> fold_left put_pair (ps1 ++ (k, v) :: ps2) d !! k = Some v.
Proof.
  intros Hk. rewrite fold_left_app. simpl. rewrite fold_pairs_notin by done.
  unfold put_pair at 1. simpl. by rewrite lookup_insert_eq.
Qed.

Lemma fold_pairs_is_Some (ps : list (list Z * list Z)) (d : gmap (list Z) (list Z))
    (k : list Z) :
  k ∈ ps.*1 -> is_Some (fold_left put_pair ps d !! k).
Proof.
  revert d. induction ps as [|[k0 v0] ps IH]; intros d; simpl; [by intros ?%elem_of_nil|].
  intros Hk. destruct (decide (k ∈ ps.*1)) as [Hin|Hnin]; [by apply IH|].
  apply elem_of_cons in Hk as [->|Hk]; [|done].
  rewrite fold_pairs_notin by done. unfold put_pair. simpl.
  rewrite lookup_insert_eq. by eexists.
Qed.

Lemma dict_of_pairs_fold (ps : list (list Z * list Z)) :
  dict_of_pairs ps = fold_left put_pair ps ∅.
Proof. reflexivity. Qed.

Lemma dict_of_pairs_empty (ps : list (list Z * list Z)) :
  dict_of_pairs ps = ∅ <-> ps = [].
Proof.
  split; [|by intros ->].
  destruct ps as [|p ps _] using rev_ind; [done|].
  intros H. destruct p as [k v].
  assert (Hl : dict_of_pairs (ps ++ [(k, v)]) !! k = Some v).
  { rewrite dict_of_pairs_fold. apply fold_pairs_last. simpl. apply not_elem_of_nil. }
  rewrite H, lookup_empty in Hl. done.
Qed.

Lemma parse_progress_None (line : list Z) :
  parse_progress line = None <-> findall line = [].
Proof.
  unfold parse_progress. destruct (decide (dict_of_pairs (findall line) = ∅)) as [He|Hne].
  - split; [|done]. intros _. by apply dict_of_pairs_empty.
  - split; [done|]. intros H. rewrite H in Hne. done.
Qed.

Lemma parse_progress_Some (line : list Z) (d : gmap (list Z) (list Z)) :
  parse_progress line = Some d -> d = dict_of_pairs (findall line).
Proof.
  unfold parse_progress. by destruct (decide _); intros [= <-].
Qed.

Lemma hits_keys_notin (after : list hit) (k : list Z) :
  Forall (fun h => hit_key h <> k) after ->
  k ∉ ((fun h => (hit_key h, hit_val h)) <$> after).*1.
Proof.
  intros H Hin. apply list_elem_of_fmap in Hin as ([k1 v1] & -> & Hin).
  apply list_elem_of_fmap in Hin as (h & [= -> ->] & Hin).
  rewrite Forall_forall in H. by apply (H h).
Qed.

(** The dictionary built from a list of matches holds, for each field,
    the value of the last match of that field. *)
Lemma dict_of_hits (hits : list hit) (k v : list Z) :
  dict_of_pairs ((fun h => (hit_key h, hit_val h)) <$> hits) !! k = Some v <->
  exists before h after,
    hits = before ++ h :: after /\ hit_key h = k /\ hit_val h = v /\
    Forall (fun h' => hit_key h' <> k) after.
Proof.
  split.
  - revert v. induction hits as [|h0 hs IH] using rev_ind; intros v.
    { intros H. unfold dict_of_pairs in H. simpl in H. by rewrite lookup_empty in H. }
    rewrite dict_of_pairs_fold, fmap_app, fold_left_app. simpl.
    unfold put_pair at 1. simpl.
    destruct (decide (hit_key h0 = k)) as [Hk|Hk].
    + rewrite Hk, lookup_insert_eq. intros [= <-]. by exists hs, h0, [].
    + rewrite lookup_insert_ne by done. intros H.
      destruct (IH _ H) as (before & h & after & -> & Hkey & Hval & Hafter).
      exists before, h, (after ++ [h0]). split; [by rewrite <- app_assoc|].
      repeat split; [done..|]. apply Forall_app. split; [done|]. by constructor.
  - intros (before & h & after & -> & <- & <- & Hafter).
    rewrite dict_of_pairs_fold, fmap_app, fmap_cons.
    apply fold_pairs_last. by apply hits_keys_notin.
Qed.

(** ** The progress extractor *)

(** C4, as the code has it.  [parse_progress] answers [None] exactly for
    the lines in which no [field=value] stands anywhere.  Its matches stand
    in the line one after the other without overlapping, and every
    [field=value] of the line is one of them or starts inside one of them,
    after its first character; the snapshot holds, for each field matched,
    the value of its last match, and no other field.  Hence every entry of
    the snapshot is a field standing in the line with that very token as
    its value; a [field=value] that does not start inside an earlier one is
    in the snapshot; and on a line where none starts inside another, the
    snapshot holds exactly the fields that stand in the line, each with the
    value of its last occurrence. *)
Theorem parse_progress_scan (line : list Z) :
  (parse_progress line = None <-> forall i k v, ~ occurs_at line i k v) /\
  (exists hits : list hit,
     in_a_row 0 hits /\
     Forall (fun h => spans_at line (hit_pos h) (hit_len h) (hit_key h) (hit_val h)) hits /\
     (forall j k v, occurs_at line j k v ->
        (exists h, h ∈ hits /\ hit_pos h = j /\ hit_key h = k /\ hit_val h = v) \/
        (exists h, h ∈ hits /\ (hit_pos h < j < hit_pos h + hit_len h)%nat)) /\
     findall line = (fun h => (hit_key h, hit_val h)) <$> hits /\
     (forall d, parse_progress line = Some d ->
        forall k v, d !! k = Some v <->
          exists before h after,
            hits = before ++ h :: after /\ hit_key h = k /\ hit_val h = v /\
            Forall (fun h' => hit_key h' <> k) after)) /\
  (forall d, parse_progress line = Some d ->
     (forall k v, d !! k = Some v -> exists i, occurs_at line i k v) /\
     (forall j k v, occurs_at line j k v ->
        (forall i n k' v', (i < j)%nat -> spans_at line i n k' v' -> (i + n <= j)%nat) ->
        is_Some (d !! k)) /\
     ((forall i n k' v' j k v, spans_at line i n k' v' -> occurs_at line j k v ->
         (i < j)%nat -> (i + n <= j)%nat) ->
      forall k v, d !! k = Some v <->
        exists j, occurs_at line j k v /\
                  forall j' v', occurs_at line j' k v' -> (j' <= j)%nat)).
Proof.
  destruct (findall_from_hits line 0) as (hits & Hrow & Hsp & Hcov & Heq).
  assert (Hcov' : forall j k v, occurs_at line j k v ->
            (exists h, h ∈ hits /\ hit_pos h = j /\ hit_key h = k /\ hit_val h = v) \/
            (exists h, h ∈ hits /\ (hit_pos h < j < hit_pos h + hit_len h)%nat)).
  { intros j k v. apply Hcov. lia. }
  assert (Hdict : forall d, parse_progress line = Some d ->
            forall k v, d !! k = Some v <->
              exists before h after,
                hits = before ++ h :: after /\ hit_key h = k /\ hit_val h = v /\
                Forall (fun h' => hit_key h' <> k) after).
  { intros d ->%parse_progress_Some k v. unfold findall. rewrite Heq. apply dict_of_hits. }
  assert (Hocc : forall h, h ∈ hits -> occurs_at line (hit_pos h) (hit_key h) (hit_val h)).
  { intros h Hin. rewrite Forall_forall in Hsp. eapply spans_occurs. by apply Hsp. }
  split; [|split].
  - rewrite parse_progress_None. unfold findall. split.
    + intros Hnil i k v Ho. apply occurs_at_drop, occurs_match_here in Ho as [n Hn].
      by rewrite (findall_from_nil_inv _ Hnil i) in Hn.
    + intros Hno. apply findall_from_none. intros i.
      destruct (match_here (drop i line)) as [[[k v] n]|] eqn:Hm; [|done].
      exfalso. apply (Hno i k v), occurs_at_drop. by eapply match_here_occurs.
  - exists hits. done.
  - intros d Hd. pose proof (Hdict d Hd) as Hd'. split; [|split].
    + intros k v (before & h & after & -> & <- & <- & _)%Hd'.
      exists (hit_pos h). apply Hocc, elem_of_app. right. by left.
    + intros j k v Ho Hfree.
      assert (Hin : exists h, h ∈ hits /\ hit_pos h = j /\ hit_key h = k /\ hit_val h = v).
      { destruct (Hcov' j k v Ho) as [H | (h & Hin & Hlt)]; [done|]. exfalso.
        rewrite Forall_forall in Hsp. pose proof (Hfree _ _ _ _ (proj1 Hlt) (Hsp h Hin)). lia. }
      destruct Hin as (h & Hin & _ & <- & _).
      apply parse_progress_Some in Hd as ->. rewrite dict_of_pairs_fold.
      apply fold_pairs_is_Some. unfold findall. rewrite Heq.
      apply list_elem_of_fmap. exists (hit_key h, hit_val h). split; [done|].
      by apply (list_elem_of_fmap_2 (fun h => (hit_key h, hit_val h))).
    + intros Hclean.
      assert (Hall : forall j k v, occurs_at line j k v ->
                exists h, h ∈ hits /\ hit_pos h = j /\ hit_key h = k /\ hit_val h = v).
      { intros j k v Ho. destruct (Hcov' j k v Ho) as [H | (h & Hin & Hlt)]; [done|]. exfalso.
        rewrite Forall_forall in Hsp.
        pose proof (Hclean _ _ _ _ _ _ _ (Hsp h Hin) Ho (proj1 Hlt)). lia. }
      intros k v. rewrite Hd'. split.
      * intros (before & h & after & -> & <- & <- & Hafter).
        destruct (in_a_row_app _ _ _ _ Hrow) as [Hb Ha].
        exists (hit_pos h). split; [apply Hocc, elem_of_app; right; by left|].
        intros j' v' Ho. destruct (Hall _ _ _ Ho) as (h' & Hin & <- & Hk & _).
        apply elem_of_app in Hin as [Hin|Hin]; [pose proof (Hb _ Hin); lia|].
        apply elem_of_cons in Hin as [->|Hin]; [lia|].
        rewrite Forall_forall in Hafter. by destruct (Hafter _ Hin).
      * intros (j & Ho & Hmax). destruct (Hall _ _ _ Ho) as (h & Hin & <- & <- & <-).
        apply list_elem_of_split in Hin as (before & after & ->).
        exists before, h, after. repeat split; try done.
        destruct (in_a_row_app _ _ _ _ Hrow) as [Hb Ha].
        apply Forall_forall. intros h' Hin Hk.
        assert (Ho' : occurs_at line (hit_pos h') (hit_key h) (hit_val h')).
        { rewrite <- Hk. apply Hocc, elem_of_app. right. by right. }
        pose proof (Hmax _ _ Ho'). pose proof (Ha _ Hin). lia.
Qed.

(** ** The filter chain of the hard-mux runner *)

Lemma hardmux_filters_cases (cfg : gmap (list Z) (list Z)) (sub_path : list Z) :
  hardmux_filters cfg sub_path =
  [lit "subtitles=" ++ sub_path]
  ++ (if decide (cfg_get cfg (lit "resolution") (lit "1920:1080") = lit "original")
      then [] else [lit "scale=" ++ cfg_get cfg (lit "resolution") (lit "1920:1080")])
  ++ (if decide (cfg_get cfg (lit "fps") (lit "original") = lit "original")
      then [] else [lit "fps=" ++ cfg_get cfg (lit "fps") (lit "original")]).
Proof. reflexivity. Qed.

(** C1, as the code has it.  Of the five settings only the frame rate
    falls back to the sentinel [original], and then no [fps=] filter is
    built.  A missing resolution falls back to [1920:1080] and is scaled
    to; the [scale=] filter is left out only for a stored [original].
    Codec, preset and quality have no sentinel: [-c:v], [-preset] and
    [-crf] are always passed, with [libx264], [faster] and [27] when the
    setting is missing. *)
Theorem hardmux_settings_defaults (cfg : gmap (list Z) (list Z))
    (vid_path sub_path out_path : list Z) :
  (cfg !! lit "fps" = None \/ cfg !! lit "fps" = Some (lit "original") ->
   forall f, f ∈ hardmux_filters cfg sub_path -> strip_prefix (lit "fps=") f = None) /\
  (forall r, cfg !! lit "fps" = Some r -> r <> lit "original" ->
   lit "fps=" ++ r ∈ hardmux_filters cfg sub_path) /\
  (cfg !! lit "resolution" = None ->
   lit "scale=1920:1080" ∈ hardmux_filters cfg sub_path) /\
  (cfg !! lit "resolution" = Some (lit "original") ->
   forall f, f ∈ hardmux_filters cfg sub_path -> strip_prefix (lit "scale=") f = None) /\
  (forall r, cfg !! lit "resolution" = Some r -> r <> lit "original" ->
   lit "scale=" ++ r ∈ hardmux_filters cfg sub_path) /\
  hardmux_argv cfg vid_path sub_path out_path =
    [lit "ffmpeg"; lit "-hide_banner"; lit "-i"; vid_path;
     lit "-vf"; join_comma (hardmux_filters cfg sub_path);
     lit "-c:v"; default (lit "libx264") (cfg !! lit "codec");
     lit "-preset"; default (lit "faster") (cfg !! lit "preset");
     lit "-crf"; default (lit "27") (cfg !! lit "crf");
     lit "-map"; lit "0:v:0"; lit "-map"; lit "0:a:0?";
     lit "-c:a"; lit "copy"; lit "-y"; out_path].
Proof.
  rewrite hardmux_filters_cases. unfold cfg_get.
  repeat split.
  - intros Hfps f. assert (Hd : default (lit "original") (cfg !! lit "fps") = lit "original")
      by (destruct Hfps as [-> | ->]; reflexivity).
    rewrite Hd. rewrite (decide_True (P := lit "original" = lit "original")) by done.
    destruct (decide _); rewrite ?elem_of_app, ?elem_of_cons, ?elem_of_nil;
      intros H; decompose [or] H; subst; try done; reflexivity.
  - intros r -> Hr. simpl default. rewrite (decide_False (P := r = _)) by done.
    rewrite !elem_of_app. right. right. by left.
  - intros ->. simpl default. rewrite decide_False by done.
    rewrite !elem_of_app. right. left. by left.
  - intros -> f. simpl default. rewrite decide_True by done.
    destruct (decide _); rewrite ?elem_of_app, ?elem_of_cons, ?elem_of_nil;
      intros H; decompose [or] H; subst; try done; reflexivity.
  - intros r -> Hr. simpl default. rewrite (decide_False (P := r = _)) by done.
    rewrite !elem_of_app. right. left. by left.
Qed.

(** With [fps] unset no frame-rate filter is built, and with nothing set
    the scale filter and the three encoder flags are still there. *)
Lemma hardmux_settings_defaults_witness :
  strip_prefix (lit "fps=") (lit "subtitles=dl/subs.srt") = None /\
  lit "scale=1920:1080" ∈ hardmux_filters ∅ (lit "dl/subs.srt").
Proof.
  pose proof (hardmux_settings_defaults ∅ (lit "dl/movie.mp4") (lit "dl/subs.srt")
                (lit "dl/movie_hard.mp4")) as (Hfps & _ & Hres & _).
  split.
  - apply Hfps; [by left|]. rewrite hardmux_filters_cases. by left.
  - by apply Hres.
Defined.

(** ** Stepping through a coroutine *)

Lemma bind_Returned {A B} (m : M A) (f : A -> M B) (e : env) (s s' : state) (a : A) :
  m e s = (Returned a, s') -> mbind f m e s = f a e s'.
Proof. intros H. unfold mbind, M_bind. by rewrite H. Qed.

Lemma bind_Raised {A B} (m : M A) (f : A -> M B) (e : env) (s s' : state) (x : exn) :
  m e s = (Raised x, s') -> mbind f m e s = (Raised x, s').
Proof. intros H. unfold mbind, M_bind. by rewrite H. Qed.

Lemma msg_edit_ok (text : list Z) (e : env) (s : state) :
  edit_raises e (length (edits s)) = false ->
  msg_edit text e s = (Returned tt, set_edits (edits s ++ [text]) s).
Proof. intros H. unfold msg_edit. by rewrite H. Qed.

Lemma msg_edit_raise (text : list Z) (e : env) (s : state) :
  edit_raises e (length (edits s)) = true ->
  msg_edit text e s = (Raised NotifierError, set_edits (edits s ++ [text]) s).
Proof. intros H. unfold msg_edit. by rewrite H. Qed.

(** A guarded edit comes back normally either way, the call having been made. *)
Lemma try_pass_msg_edit (text : list Z) (e : env) (s : state) :
  try_pass (msg_edit text) e s = (Returned tt, set_edits (edits s ++ [text]) s).
Proof. unfold try_pass, msg_edit. by destruct (edit_raises e _). Qed.

Ltac mstep :=
  first
    [ erewrite bind_Returned by reflexivity
    | erewrite bind_Returned by (apply try_pass_msg_edit)
    | erewrite bind_Returned by (apply msg_edit_ok; eassumption) ].

(** ** The output reader *)

Lemma on_line_eq (raw : list Z) (e : env) (s : state) :
  on_line raw e s =
  (Returned tt,
   match parse_progress (decode_ignore raw) with
   | None => s
   | Some prog =>
       let s1 := set_clock_reads (S (clock_reads s)) s in
       if throttle_due (elapsed_at e (clock_reads s))
       then set_edits (edits s1 ++ [progress_text prog]) s1
       else s1
   end).
Proof.
  unfold on_line. destruct (parse_progress (decode_ignore raw)) as [prog|]; [|done].
  mstep. destruct (throttle_due _); [apply try_pass_msg_edit | done].
Qed.

Lemma parsed_count_cons (raw : list Z) (lines : list (list Z)) :
  parsed_count (raw :: lines) =
  match parse_progress (decode_ignore raw) with
  | None => parsed_count lines
  | Some _ => S (parsed_count lines)
  end.
Proof.
  unfold parsed_count. rewrite filter_cons.
  destruct (parse_progress (decode_ignore raw)) as [prog|].
  - rewrite decide_True by by eexists. done.
  - rewrite decide_False by by intros [? ?]. done.
Qed.

Lemma for_each_on_line (lines : list (list Z)) (e : env) (s : state) :
  for_each on_line lines e s =
  (Returned tt,
   {| running_jobs := running_jobs s; stderr_pipe := stderr_pipe s;
      returncode := returncode s; launched := launched s;
      edits := edits s ++ due_texts (elapsed_at e) (clock_reads s) lines;
      clock_reads := clock_reads s + parsed_count lines;
      handles := handles s |}).
Proof.
  revert s. induction lines as [|raw lines IH]; intros s; simpl.
  - destruct s. unfold parsed_count. simpl. rewrite app_nil_r, Nat.add_0_r. done.
  - erewrite bind_Returned by apply on_line_eq. rewrite IH, parsed_count_cons.
    destruct (parse_progress (decode_ignore raw)) as [prog|]; [|done].
    simpl. destruct (throttle_due _); simpl; f_equal; f_equal;
      rewrite <- ?app_assoc; try done; lia.
Qed.

Lemma read_stderr_eq (e : env) (s : state) :
  read_stderr e s =
  (Returned tt,
   {| running_jobs := running_jobs s; stderr_pipe := [];
      returncode := returncode s; launched := launched s;
      edits := edits s ++ due_texts (elapsed_at e) (clock_reads s)
                            (readlines (stderr_pipe s));
      clock_reads := clock_reads s + parsed_count (readlines (stderr_pipe s));
      handles := handles s |}).
Proof. unfold read_stderr. do 2 mstep. by rewrite for_each_on_line. Qed.

(** C9.  Whatever the Notifier does, [read_stderr] comes back normally,
    with the stream read to its end; every yielded line has been handled:
    the clock was read once for each line that parses, and [msg.edit] was
    called for each of those that were due, those after a failed call
    included. *)
Theorem read_stderr_swallows_notifier_failures (e : env) (s : state) :
  exists s',
    read_stderr e s = (Returned tt, s') /\
    stderr_pipe s' = [] /\
    clock_reads s' = (clock_reads s + parsed_count (readlines (stderr_pipe s)))%nat /\
    edits s' = edits s ++ due_texts (elapsed_at e) (clock_reads s)
                            (readlines (stderr_pipe s)) /\
    running_jobs s' = running_jobs s.
Proof. eexists. split; [apply read_stderr_eq|]. done. Qed.

(** ** The runners *)

Section runners.

#[local] Arguments lit : simpl never.
#[local] Arguments register : simpl never.
#[local] Arguments unregister : simpl never.
#[local] Arguments readlines : simpl never.
#[local] Arguments due_texts : simpl never.
#[local] Arguments parsed_count : simpl never.
#[local] Arguments started_text : simpl never.
#[local] Arguments completed_text : simpl never.
#[local] Arguments error_text : simpl never.
#[local] Arguments softmux_argv : simpl never.
#[local] Arguments hardmux_argv : simpl never.
#[local] Arguments path_join : simpl never.
#[local] Arguments splitext : simpl never.

(** The state in which a runner decides between success and failure. *)
Lemma run_job_eq (kind : mux_type) (started completed failed : list Z) (proc : nat)
    (output : list Z) (e : env) (s : state) :
  edit_raises e (length (edits s)) = false ->
  run_job kind started completed failed proc output e s =
  (if decide (tool_returncode e = 0)
   then elapsed ← time_elapsed;
        msg_edit (completed_text completed (uuid_hex8 e) elapsed);;
        mret (PyStr output)
   else err ← stderr_read_all;
        msg_edit (error_text failed err);;
        mret (PyBool false))
    e
    {| running_jobs :=
         unregister (uuid_hex8 e)
           (register (uuid_hex8 e)
              {| proc := proc; tasks := [handles s; S (handles s)]; type := kind |}
              (running_jobs s));
       stderr_pipe := [];
       returncode := Some (tool_returncode e);
       launched := launched s;
       edits := edits s ++ [started_text started (uuid_hex8 e)]
                ++ due_texts (elapsed_at e) (clock_reads s) (readlines (stderr_pipe s));
       clock_reads := clock_reads s + parsed_count (readlines (stderr_pipe s));
       handles := S (S (handles s)) |}.
Proof.
  intros Hok. unfold run_job.
  do 4 mstep.
  erewrite bind_Returned by (apply msg_edit_ok; exact Hok).
  erewrite bind_Returned by apply read_stderr_eq.
  do 3 mstep. simpl. rewrite <- app_assoc.
  destruct (tool_returncode e) as [|p|p]; reflexivity.
Qed.

Lemma softmux_vid_eq (vid_filename sub_filename : list Z) (e : env) (s : state) :
  softmux_vid vid_filename sub_filename e s =
  run_job soft (lit "Soft-mux") (lit "Soft-Mux") (lit "soft-mux") (handles s)
    ((splitext vid_filename).1 ++ lit "_soft.mkv") e
    {| running_jobs := running_jobs s; stderr_pipe := tool_stderr e;
       returncode := None;
       launched := launched s ++
         [softmux_argv (path_join (DOWNLOAD_DIR e) vid_filename)
            (path_join (DOWNLOAD_DIR e) sub_filename)
            (lstrip_dots (splitext sub_filename).2)
            (path_join (DOWNLOAD_DIR e) ((splitext vid_filename).1 ++ lit "_soft.mkv"))];
       edits := edits s; clock_reads := clock_reads s; handles := S (handles s) |}.
Proof. reflexivity. Qed.

Lemma hardmux_vid_eq (vid_filename sub_filename : list Z) (e : env) (s : state) :
  hardmux_vid vid_filename sub_filename e s =
  run_job hard (lit "Hard-mux") (lit "Hard-Mux") (lit "hard-mux") (handles s)
    ((splitext vid_filename).1 ++ lit "_hard.mp4") e
    {| running_jobs := running_jobs s; stderr_pipe := tool_stderr e;
       returncode := None;
       launched := launched s ++
         [hardmux_argv (user_settings e) (path_join (DOWNLOAD_DIR e) vid_filename)
            (path_join (DOWNLOAD_DIR e) sub_filename)
            (path_join (DOWNLOAD_DIR e) ((splitext vid_filename).1 ++ lit "_hard.mp4"))];
       edits := edits s; clock_reads := clock_reads s; handles := S (handles s) |}.
Proof. reflexivity. Qed.

Lemma run_job_success (kind : mux_type) (started completed failed : list Z) (proc : nat)
    (output : list Z) (e : env) (s : state) :
  stderr_pipe s = tool_stderr e ->
  tool_returncode e = 0 ->
  edit_raises e (announce_slot s) = false ->
  edit_raises e (report_slot e s) = false ->
  (run_job kind started completed failed proc output e s).1 = Returned (PyStr output).
Proof.
  unfold announce_slot, report_slot. intros Hpipe Hrc H1 H2.
  rewrite run_job_eq by done. rewrite decide_True by done.
  mstep. erewrite bind_Returned; [reflexivity|].
  apply msg_edit_ok. rewrite <- H2. f_equal. simpl.
  rewrite Hpipe, !length_app. simpl. lia.
Qed.

Lemma run_job_failure (kind : mux_type) (started completed failed : list Z) (proc : nat)
    (output : list Z) (e : env) (s : state) :
  stderr_pipe s = tool_stderr e ->
  tool_returncode e <> 0 ->
  edit_raises e (announce_slot s) = false ->
  edit_raises e (report_slot e s) = false ->
  exists s',
    run_job kind started completed failed proc output e s = (Returned (PyBool false), s') /\
    last (edits s') = Some (error_text failed []) /\
    stderr_pipe s' = [] /\
    lookup_job (uuid_hex8 e) (running_jobs s') = None.
Proof.
  unfold announce_slot, report_slot. intros Hpipe Hrc H1 H2.
  rewrite run_job_eq by done. rewrite decide_False by done.
  mstep. eexists. split.
  - erewrite bind_Returned; [reflexivity|].
    apply msg_edit_ok. rewrite <- H2. f_equal. simpl.
    rewrite Hpipe, !length_app. simpl. lia.
  - simpl. rewrite last_snoc. repeat split.
    apply lookup_delete_eq.
Qed.

Lemma run_job_report_raises (kind : mux_type) (started completed failed : list Z)
    (proc : nat) (output : list Z) (e : env) (s : state) :
  stderr_pipe s = tool_stderr e ->
  edit_raises e (announce_slot s) = false ->
  edit_raises e (report_slot e s) = true ->
  (run_job kind started completed failed proc output e s).1 = Raised NotifierError.
Proof.
  unfold announce_slot, report_slot. intros Hpipe H1 H2.
  rewrite run_job_eq by done.
  destruct (decide (tool_returncode e = 0)); mstep;
    (erewrite bind_Raised; [reflexivity|]);
    apply msg_edit_raise; rewrite <- H2; f_equal; simpl;
    rewrite Hpipe, !length_app; simpl; lia.
Qed.

(** The final report changes neither the registry nor the launches,
    whether it is taken or not. *)
Lemma report_frame (completed failed job_id output : list Z) (rc : Z) (e : env) (s : state) :
  let r := (if decide (rc = 0)
            then elapsed ← time_elapsed;
                 msg_edit (completed_text completed job_id elapsed);;
                 mret (PyStr output)
            else err ← stderr_read_all;
                 msg_edit (error_text failed err);;
                 mret (PyBool false)) e s in
  running_jobs r.2 = running_jobs s /\ launched r.2 = launched s.
Proof.
  simpl. destruct (decide (rc = 0)).
  - mstep. destruct (edit_raises e (length (edits (set_clock_reads (S (clock_reads s)) s))))
      eqn:Hr.
    + erewrite bind_Raised by (apply msg_edit_raise; exact Hr). done.
    + erewrite bind_Returned by (apply msg_edit_ok; exact Hr). done.
  - mstep. destruct (edit_raises e (length (edits (set_stderr_pipe [] s)))) eqn:Hr.
    + erewrite bind_Raised by (apply msg_edit_raise; exact Hr). done.
    + erewrite bind_Returned by (apply msg_edit_ok; exact Hr). done.
Qed.

Lemma run_job_frame (kind : mux_type) (started completed failed : list Z)
    (proc : nat) (output : list Z) (e : env) (s : state) :
  edit_raises e (length (edits s)) = false ->
  running_jobs (run_job kind started completed failed proc output e s).2
  = delete (uuid_hex8 e) (running_jobs s).
Proof.
  intros Hr. rewrite run_job_eq by done.
  match goal with
  | |- context [(if decide _ then _ else _) _ ?s2] =>
      pose proof (report_frame completed failed (uuid_hex8 e) output
                    (tool_returncode e) e s2) as [H1 _]
  end.
  cbv zeta in H1. rewrite H1. simpl.
  unfold unregister, register. apply delete_insert_eq.
Qed.

Lemma splitext_app (p : list Z) : (splitext p).1 ++ (splitext p).2 = p.
Proof. unfold splitext. destruct (_ && _); simpl; [apply take_drop | apply app_nil_r]. Qed.

(** When the tool exits with 0 and the Notifier takes the runner's
    announcement and its final report, the soft-mux runner returns the
    video's name with its extension replaced by [_soft.mkv], the hard-mux
    runner by [_hard.mp4]. *)
Theorem mux_success_returns_output (vid_filename sub_filename : list Z)
    (e : env) (s : state) :
  tool_returncode e = 0 ->
  edit_raises e (announce_slot s) = false ->
  edit_raises e (report_slot e s) = false ->
  (softmux_vid vid_filename sub_filename e s).1
    = Returned (PyStr ((splitext vid_filename).1 ++ lit "_soft.mkv")) /\
  (hardmux_vid vid_filename sub_filename e s).1
    = Returned (PyStr ((splitext vid_filename).1 ++ lit "_hard.mp4")) /\
  (splitext vid_filename).1 ++ (splitext vid_filename).2 = vid_filename.
Proof.
  intros Hrc H1 H2. rewrite softmux_vid_eq, hardmux_vid_eq.
  split; [|split]; [by apply run_job_success..|apply splitext_app].
Qed.

Lemma mux_success_returns_output_witness :
  (softmux_vid (lit "movie.mp4") (lit "subs.srt")
     (sample_env sample_progress 0 never) idle_state).1
  = Returned (PyStr (lit "movie_soft.mkv")) /\
  (hardmux_vid (lit "movie.mp4") (lit "subs.srt")
     (sample_env sample_progress 0 never) idle_state).1
  = Returned (PyStr (lit "movie_hard.mp4")).
Proof.
  pose proof (mux_success_returns_output (lit "movie.mp4") (lit "subs.srt")
                (sample_env sample_progress 0 never) idle_state
                eq_refl eq_refl eq_refl) as (Hs & Hh & _).
  split; [exact Hs | exact Hh].
Defined.

(** C6 fails on the code as it stands.  The [msg.edit] of the final
    report, line 100 (172), is not guarded as the one of lines 55-58 is:
    when the Notifier takes the announcement and refuses the report, the
    exception leaves the runner, which then returns nothing, whatever the
    tool's exit status and so also when the tool has exited with 0. *)
Theorem mux_report_failure_propagates (vid_filename sub_filename : list Z)
    (e : env) (s : state) :
  edit_raises e (announce_slot s) = false ->
  edit_raises e (report_slot e s) = true ->
  (softmux_vid vid_filename sub_filename e s).1 = Raised NotifierError /\
  (hardmux_vid vid_filename sub_filename e s).1 = Raised NotifierError.
Proof.
  intros H1 H2. rewrite softmux_vid_eq, hardmux_vid_eq.
  split; by apply run_job_report_raises.
Qed.

(** The soft-mux job on [movie.mp4] and [subs.srt]: three progress lines,
    exit status 0, and a Notifier that fails at its fourth call, which is
    the report of completion. *)
Lemma mux_report_failure_propagates_witness :
  tool_returncode (sample_env sample_progress 0 (Nat.eqb 3)) = 0 /\
  report_slot (sample_env sample_progress 0 (Nat.eqb 3)) idle_state = 3%nat /\
  (softmux_vid (lit "movie.mp4") (lit "subs.srt")
     (sample_env sample_progress 0 (Nat.eqb 3)) idle_state).1
  = Raised NotifierError.
Proof.
  split; [reflexivity|]. split; [vm_compute; reflexivity|].
  refine (proj1 (mux_report_failure_propagates (lit "movie.mp4") (lit "subs.srt")
                   (sample_env sample_progress 0 (Nat.eqb 3)) idle_state eq_refl _)).
  vm_compute. reflexivity.
Defined.

(** C7, as the code has it.  When the tool exits with another status and
    the Notifier takes the runner's announcement and its final report,
    the runner reads what is left of stderr, which is nothing, the reader
    having read the stream to its end; the report is the error text
    around the decoded remainder; and the runner returns [False]. *)
Theorem mux_failure_reports_and_returns_false (vid_filename sub_filename : list Z)
    (e : env) (s : state) :
  tool_returncode e <> 0 ->
  edit_raises e (announce_slot s) = false ->
  edit_raises e (report_slot e s) = false ->
  (exists s',
     softmux_vid vid_filename sub_filename e s = (Returned (PyBool false), s') /\
     last (edits s') = Some (error_text (lit "soft-mux") []) /\
     stderr_pipe s' = [] /\
     lookup_job (uuid_hex8 e) (running_jobs s') = None) /\
  (exists s',
     hardmux_vid vid_filename sub_filename e s = (Returned (PyBool false), s') /\
     last (edits s') = Some (error_text (lit "hard-mux") []) /\
     stderr_pipe s' = [] /\
     lookup_job (uuid_hex8 e) (running_jobs s') = None).
Proof.
  intros Hrc H1 H2. rewrite softmux_vid_eq, hardmux_vid_eq.
  split; by apply run_job_failure.
Qed.

Lemma mux_failure_reports_and_returns_false_witness :
  (hardmux_vid (lit "movie.mp4") (lit "subs.srt")
     (sample_env sample_failure 2 never) idle_state).1
  = Returned (PyBool false).
Proof.
  pose proof (mux_failure_reports_and_returns_false (lit "movie.mp4") (lit "subs.srt")
                (sample_env sample_failure 2 never) idle_state
                ltac:(discriminate) eq_refl eq_refl) as (_ & s' & Hh & _).
  by rewrite Hh.
Defined.

(** The hard-mux runner with nothing set and a tool that exits with 2:
    what comes back is the bare [False]; the text is in no returned
    value, and the report shows an empty remainder. *)
Lemma hardmux_failure_returns_bare_false :
  let r := hardmux_vid (lit "movie.mp4") (lit "subs.srt")
             (sample_env sample_failure 2 never) idle_state in
  r.1 = Returned (PyBool false) /\
  carried_text (PyBool false) = None /\
  last (edits r.2)
  = Some ([10060] ++ lit " Error during hard-mux!" ++ [10; 10] ++ lit "<pre></pre>").
Proof. vm_compute. done. Qed.

End runners.

(** ** The registry *)

Lemma register_job_eq (job_id : list Z) (entry : job) (e : env) (s : state) :
  register_job job_id entry e s
  = (Returned tt, set_running_jobs (register job_id entry (running_jobs s)) s).
Proof. reflexivity. Qed.

(** C2, as the code has it.  Registering never fails: whatever the
    registry holds, the assignment of line 88 (160) returns normally,
    leaves the new entry under the identifier, an earlier one being
    replaced, and touches no other identifier. *)
Theorem register_job_replaces (job_id : list Z) (entry : job) (e : env) (s : state) :
  exists s',
    register_job job_id entry e s = (Returned tt, s') /\
    lookup_job job_id (running_jobs s') = Some entry /\
    (forall other, other <> job_id ->
       lookup_job other (running_jobs s') = lookup_job other (running_jobs s)).
Proof.
  eexists. split; [apply register_job_eq|]. unfold lookup_job, register. simpl. split.
  - apply lookup_insert_eq.
  - intros other Hne. by apply lookup_insert_ne.
Qed.

(** An identifier that is live is registered again: no error, and the
    entry of the first job is gone. *)
Lemma register_job_live_id_is_replaced :
  let first := {| proc := 0%nat; tasks := [1%nat; 2%nat]; type := soft |} in
  let second := {| proc := 3%nat; tasks := [4%nat; 5%nat]; type := hard |} in
  let s := set_running_jobs {[ lit "1a2b3c4d" := first ]} idle_state in
  lookup_job (lit "1a2b3c4d") (running_jobs s) = Some first /\
  exists s',
    register_job (lit "1a2b3c4d") second (sample_env [] 0 never) s = (Returned tt, s') /\
    lookup_job (lit "1a2b3c4d") (running_jobs s') = Some second /\
    second <> first.
Proof.
  cbv zeta. split; [apply lookup_singleton_eq|].
  eexists. split; [apply register_job_eq|]. split; [apply lookup_insert_eq | discriminate].
Qed.

(** ** The summary *)

(** C10.  The summary is the heading and three lines, for size, time and
    speed, each with the snapshot's value or [N/A] in its place; no other
    field of the snapshot has a part in it. *)
Theorem progress_text_shows_size_time_speed (prog : gmap (list Z) (list Z)) :
  progress_text prog =
    [128260] ++ lit " <b>Progress</b>" ++ [10]
    ++ [8226] ++ lit " Size   : "
    ++ match prog !! lit "size" with Some v => v | None => lit "N/A" end ++ [10]
    ++ [8226] ++ lit " Time   : "
    ++ match prog !! lit "time" with Some v => v | None => lit "N/A" end ++ [10]
    ++ [8226] ++ lit " Speed  : "
    ++ match prog !! lit "speed" with Some v => v | None => lit "N/A" end /\
  (forall k v, k <> lit "size" -> k <> lit "time" -> k <> lit "speed" ->
     progress_text (<[k := v]> prog) = progress_text prog /\
     progress_text (delete k prog) = progress_text prog) /\
  progress_text (delete (lit "size") (delete (lit "time") (delete (lit "speed") prog)))
  = [128260] ++ lit " <b>Progress</b>" ++ [10]
    ++ [8226] ++ lit " Size   : N/A" ++ [10]
    ++ [8226] ++ lit " Time   : N/A" ++ [10]
    ++ [8226] ++ lit " Speed  : N/A".
Proof.
  split; [reflexivity|]. split.
  - intros k v H1 H2 H3. unfold progress_text, get_or_na.
    by rewrite !lookup_insert_ne, !lookup_delete_ne.
  - unfold progress_text, get_or_na.
    rewrite lookup_delete_eq.
    rewrite (lookup_delete_ne _ (lit "size") (lit "time")) by done.
    rewrite lookup_delete_eq.
    rewrite (lookup_delete_ne _ (lit "size") (lit "speed")) by done.
    rewrite (lookup_delete_ne _ (lit "time") (lit "speed")) by done.
    rewrite lookup_delete_eq. reflexivity.
Qed.

Lemma progress_text_shows_size_time_speed_witness :
  progress_text (<[lit "frame" := lit "10"]> {[ lit "time" := lit "00:00:00.40" ]})
  = progress_text {[ lit "time" := lit "00:00:00.40" ]}.
Proof.
  pose proof (progress_text_shows_size_time_speed {[ lit "time" := lit "00:00:00.40" ]})
    as (_ & Hother & _).
  refine (proj1 (Hother (lit "frame") (lit "10") _ _ _)); discriminate.
Defined.

(** ** The line reader *)

(** C3 at two ways of reading the same five octets [a CR LF b LF]:
    when the CR ends one read and the LF starts the next, an empty line
    comes out between [a] and [b]; and when the stream is already at its
    end after the first read, nothing comes out at all. *)
Lemma readlines_depends_on_reads :
  readlines [[97; 13; 10; 98; 10]; []] = [[97]; [98]] /\
  readlines [[97; 13]; [10; 98; 10]; []] = [[97]; []; [98]] /\
  readlines [[97; 13; 10; 98; 10]] = [] /\
  readlines_dropped [[97; 13; 10; 98; 10]] = [97; 13; 10; 98; 10].
Proof. vm_compute. done. Qed.

(** The field [fps] stands in the line, at offset 6 with the token [30],
    and the snapshot has no [fps]: the scan took [fps=30] for the value
    of [frame]. *)
Lemma parse_progress_misses_field_inside_value :
  occurs_at (lit "frame=fps=30") 6 (lit "fps") (lit "30") /\
  exists d, parse_progress (lit "frame=fps=30") = Some d /\
            d !! lit "frame" = Some (lit "fps=30") /\
            d !! lit "fps" = None.
Proof.
  split.
  - split; [unfold progress_fields; set_solver|].
    exists [], [], []. repeat split; try done.
    repeat constructor.
  - eexists. split; [vm_compute; reflexivity|]. split; vm_compute; reflexivity.
Qed.

(** A line without any of the six fields: no match, and indeed no field
    stands in it. *)
Lemma parse_progress_scan_witness :
  parse_progress (lit "Press [q] to stop") = None /\
  ~ occurs_at (lit "Press [q] to stop") 7 (lit "fps") (lit "q").
Proof.
  assert (H : parse_progress (lit "Press [q] to stop") = None) by (vm_compute; reflexivity).
  split; [exact H|].
  exact (proj1 (proj1 (parse_progress_scan (lit "Press [q] to stop"))) H 7%nat
           (lit "fps") (lit "q")).
Defined.

(** The hard-mux runner for a user with no stored setting: the vector it
    launches scales to 1920:1080 and names codec, preset and quality. *)
Lemma hardmux_unset_settings_are_passed :
  user_settings (sample_env sample_failure 2 never) !! lit "resolution" = None /\
  user_settings (sample_env sample_failure 2 never) !! lit "codec" = None /\
  user_settings (sample_env sample_failure 2 never) !! lit "crf" = None /\
  user_settings (sample_env sample_failure 2 never) !! lit "preset" = None /\
  launched (hardmux_vid (lit "movie.mp4") (lit "subs.srt")
              (sample_env sample_failure 2 never) idle_state).2
  = [[lit "ffmpeg"; lit "-hide_banner"; lit "-i"; lit "downloads/movie.mp4";
      lit "-vf"; lit "subtitles=downloads/subs.srt,scale=1920:1080";
      lit "-c:v"; lit "libx264"; lit "-preset"; lit "faster"; lit "-crf"; lit "27";
      lit "-map"; lit "0:v:0"; lit "-map"; lit "0:a:0?"; lit "-c:a"; lit "copy";
      lit "-y"; lit "downloads/movie_hard.mp4"]].
Proof. vm_compute. done. Qed.

(** ** The throttle *)

Lemma py_round_nearest (x : Q) :
  (inject_Z (py_round x) - (1 # 2) <= x <= inject_Z (py_round x) + (1 # 2))%Q.
Proof.
  unfold py_round.
  pose proof (Qfloor_le x) as Hlo. pose proof (Qlt_floor x) as Hhi.
  rewrite inject_Z_plus in Hhi. change (inject_Z 1) with 1%Q in Hhi.
  destruct (Qcompare (x - inject_Z (Qfloor x)) (1 # 2)) eqn:Hc.
  - apply Qeq_alt in Hc.
    destruct (Z.even (Qfloor x)); rewrite ?inject_Z_plus;
      change (inject_Z 1) with 1%Q; lra.
  - apply Qlt_alt in Hc. lra.
  - apply Qgt_alt in Hc. rewrite inject_Z_plus. change (inject_Z 1) with 1%Q. lra.
Qed.

Lemma py_round_integer (n : Z) : py_round (inject_Z n) = n.
Proof.
  unfold py_round. rewrite Qfloor_Z.
  assert (Hc : Qcompare (inject_Z n - inject_Z n) (1 # 2) = Lt) by (rewrite <- Qlt_alt; generalize (inject_Z n); intros q; lra).
  by rewrite Hc.
Qed.

(** C5.  [round] takes the elapsed time to an integer at most half a
    second away, and the throttle lets a line through exactly when that
    integer is a multiple of five: for 0, 5 and 10 it does, for 1 to 4
    and 6 to 9 it does not.  A line that parses is then passed to
    [msg.edit] when the throttle lets it through, and not otherwise. *)
Theorem throttle_due_every_five_seconds (elapsed : Q) :
  (inject_Z (py_round elapsed) - (1 # 2) <= elapsed
   <= inject_Z (py_round elapsed) + (1 # 2))%Q /\
  (throttle_due elapsed = true <-> py_round elapsed mod 5 = 0) /\
  (forall n, 0 <= n <= 10 -> py_round elapsed = n ->
     throttle_due elapsed = (n =? 0) || (n =? 5) || (n =? 10)) /\
  (forall raw prog e s,
     parse_progress (decode_ignore raw) = Some prog ->
     elapsed_at e (clock_reads s) = elapsed ->
     edits (on_line raw e s).2
     = edits s ++ (if throttle_due elapsed then [progress_text prog] else [])).
Proof.
  split; [apply py_round_nearest|]. split; [apply Z.eqb_eq|]. split.
  - intros n Hn Hr. unfold throttle_due. rewrite Hr.
    assert (Hcases : n ∈ seqZ 0 11) by (apply elem_of_seqZ; lia).
    let l := eval vm_compute in (seqZ 0 11) in change (seqZ 0 11) with l in Hcases.
    repeat (apply elem_of_cons in Hcases as [-> | Hcases]; [reflexivity|]).
    by apply elem_of_nil in Hcases.
  - intros raw prog e s Hp <-. rewrite on_line_eq, Hp. simpl.
    destruct (throttle_due _); simpl; [done | by rewrite app_nil_r].
Qed.

Lemma throttle_due_every_five_seconds_witness :
  throttle_due (10 # 1) = true /\ throttle_due (7 # 1) = false.
Proof.
  split.
  - apply (throttle_due_every_five_seconds (10 # 1)). reflexivity.
  - pose proof (throttle_due_every_five_seconds (7 # 1)) as (_ & _ & H & _).
    apply (H 7); [lia | reflexivity].
Defined.

(** ** Jobs side by side *)

Lemma update_ids (sys : system) (i : nat) (a a' : activity) (r : gmap (list Z) job) :
  activities sys !! i = Some a -> job_id a' = job_id a ->
  job_id <$> activities (update i a' r sys) = job_id <$> activities sys.
Proof.
  intros Hi Hid. unfold update. simpl. rewrite list_fmap_insert, Hid.
  apply list_insert_id. by rewrite list_lookup_fmap, Hi.
Qed.

Lemma update_consistent (sys : system) (i : nat) (a a' : activity) (r : gmap (list Z) job) :
  NoDup (job_id <$> activities sys) ->
  consistent sys ->
  activities sys !! i = Some a ->
  job_id a' = job_id a ->
  (forall k, k <> job_id a -> r !! k = registry sys !! k) ->
  match phase_of a' with
  | Starting => r !! job_id a' = None
  | Finished => r !! job_id a' = None /\ reader_done a' = true /\ waiter_done a' = true
  | Announcing | Waiting | Aborted => r !! job_id a' = Some (entry a')
  end ->
  consistent (update i a' r sys).
Proof.
  intros Hnd Hc Hi Hid Hother Hnew j b Hb. unfold update in *. simpl in *.
  destruct (decide (i = j)) as [<-|Hne].
  - rewrite list_lookup_insert_eq in Hb by by eapply lookup_lt_Some.
    by injection Hb as <-.
  - rewrite list_lookup_insert_ne in Hb by done.
    assert (Hk : job_id b <> job_id a).
    { intros Heq. apply Hne.
      apply (NoDup_lookup (job_id <$> activities sys) i j (job_id a));
        [done | by rewrite list_lookup_fmap, Hi | rewrite list_lookup_fmap, Hb; simpl; by rewrite Heq]. }
    rewrite (Hother _ Hk). exact (Hc j b Hb).
Qed.

Lemma fire_ids (act : action) (sys sys' : system) :
  fire act sys = Some sys' ->
  job_id <$> activities sys' = job_id <$> activities sys.
Proof.
  destruct act as [i|i|i|i|i|i]; simpl;
    destruct (activities sys !! i) as [a|] eqn:Hi; simpl; try done;
    repeat match goal with
           | |- context [match phase_of a with _ => _ end] => destruct (phase_of a)
           | |- context [if ?b then _ else _] => destruct b
           end;
    try done; intros [= <-]; by eapply update_ids.
Qed.

Lemma fire_consistent (act : action) (sys sys' : system) :
  NoDup (job_id <$> activities sys) ->
  consistent sys ->
  fire act sys = Some sys' ->
  consistent sys'.
Proof.
  intros Hnd Hc Hf.
  destruct act as [i|i|i|i|i|i]; simpl in Hf;
    destruct (activities sys !! i) as [a|] eqn:Hi; simpl in Hf; try done;
    pose proof (Hc i a Hi) as Ha;
    destruct (phase_of a) eqn:Hp; simpl in Hf; try done.
  - injection Hf as <-. eapply update_consistent; eauto.
    + intros k Hk. unfold register. by rewrite lookup_insert_ne.
    + simpl. unfold register. apply lookup_insert_eq.
  - injection Hf as <-. eapply update_consistent; eauto.
  - injection Hf as <-. eapply update_consistent; eauto.
  - injection Hf as <-. eapply update_consistent; eauto. simpl. by rewrite Hp.
  - injection Hf as <-. eapply update_consistent; eauto. simpl. by rewrite Hp.
  - injection Hf as <-. eapply update_consistent; eauto. simpl. rewrite Hp. tauto.
  - injection Hf as <-. eapply update_consistent; eauto. simpl. by rewrite Hp.
  - injection Hf as <-. eapply update_consistent; eauto. simpl. by rewrite Hp.
  - injection Hf as <-. eapply update_consistent; eauto. simpl. by rewrite Hp.
  - injection Hf as <-. eapply update_consistent; eauto. simpl. rewrite Hp. tauto.
  - injection Hf as <-. eapply update_consistent; eauto. simpl. by rewrite Hp.
  - destruct (reader_done a) eqn:Hr; destruct (waiter_done a) eqn:Hw; simpl in Hf; try done.
    injection Hf as <-. eapply update_consistent; eauto.
    + intros k Hk. unfold unregister. by rewrite lookup_delete_ne.
    + simpl. unfold unregister. by rewrite lookup_delete_eq.
Qed.

Lemma run_consistent (acts : list action) (sys sys' : system) :
  NoDup (job_id <$> activities sys) ->
  consistent sys ->
  run acts sys = Some sys' ->
  consistent sys'.
Proof.
  revert sys. induction acts as [|act acts IH]; intros sys Hnd Hc; simpl.
  - by intros [= <-].
  - destruct (fire act sys) as [sys1|] eqn:Hf; simpl; [|done].
    apply IH; [by rewrite (fire_ids _ _ _ Hf) | by eapply fire_consistent].
Qed.

Lemma initial_ids (jobs : list (list Z * job)) :
  job_id <$> activities (initial jobs) = jobs.*1.
Proof.
  unfold initial. simpl. induction jobs as [|j jobs IH]; simpl; [done|]. by f_equal.
Qed.

Lemma initial_consistent (jobs : list (list Z * job)) : consistent (initial jobs).
Proof.
  intros i a Hi. unfold initial in Hi. simpl in Hi.
  apply list_lookup_fmap_Some in Hi as (j & -> & _). simpl. apply lookup_empty.
Qed.

Lemma unregister_job_twice (job_id : list Z) (e : env) (s : state) :
  (unregister_job job_id;; unregister_job job_id) e s = unregister_job job_id e s.
Proof.
  destruct s. unfold unregister_job, unregister, mbind, M_bind, get, put, set_running_jobs.
  simpl. by rewrite delete_delete_eq.
Qed.

Lemma update_tracked (sys : system) (i : nat) (jid : list Z) (ent : job)
    (i' : nat) (a0 a' : activity) (r : gmap (list Z) job) :
  tracked i jid ent sys ->
  activities sys !! i' = Some a0 ->
  job_id a' = job_id a0 ->
  entry a' = entry a0 ->
  (job_id a0 <> jid -> r !! jid = registry sys !! jid) ->
  (i' = i ->
   match phase_of a' with
   | Starting => r !! jid = None
   | Finished => r !! jid = None /\ reader_done a' = true /\ waiter_done a' = true
   | Announcing | Waiting | Aborted => r !! jid = Some ent
   end) ->
  tracked i jid ent (update i' a' r sys).
Proof.
  intros [(a & Hi & Hid & Hent & Hph) Hoth] Hi' Hjob Hentry Hreg Hnew.
  unfold tracked, update. simpl. split.
  - destruct (decide (i' = i)) as [->|Hne].
    + rewrite Hi in Hi'. injection Hi' as <-.
      exists a'. rewrite list_lookup_insert_eq by by eapply lookup_lt_Some.
      repeat split; [congruence..|]. by apply Hnew.
    + exists a. rewrite list_lookup_insert_ne by done.
      repeat split; [done..|]. rewrite Hreg; [done|]. by apply (Hoth i').
  - intros j b Hj Hb. destruct (decide (i' = j)) as [->|Hne].
    + rewrite list_lookup_insert_eq in Hb by by eapply lookup_lt_Some.
      injection Hb as <-. rewrite Hjob. by apply (Hoth j).
    + rewrite list_lookup_insert_ne in Hb by done. by apply (Hoth j).
Qed.

Lemma fire_tracked (act : action) (sys sys' : system) (i : nat) (jid : list Z) (ent : job) :
  tracked i jid ent sys -> fire act sys = Some sys' -> tracked i jid ent sys'.
Proof.
  intros Ht Hf. pose proof Ht as [(a & Hi & Hid & Hent & Hph) _].
  destruct act as [i'|i'|i'|i'|i'|i']; simpl in Hf;
    destruct (activities sys !! i') as [a0|] eqn:Hi'; simpl in Hf; try done;
    destruct (phase_of a0) eqn:Hp; simpl in Hf; try done.
  12: destruct (reader_done a0) eqn:Hr; destruct (waiter_done a0) eqn:Hw;
        simpl in Hf; try done.
  all: injection Hf as <-; eapply update_tracked; eauto.
  all: try (intros Hne; unfold register, unregister;
            first [by rewrite lookup_insert_ne | by rewrite lookup_delete_ne]).
  all: intros ->; rewrite Hi in Hi'; injection Hi' as <-; simpl;
       rewrite ?Hp in *; unfold register, unregister; subst jid ent;
       rewrite ?lookup_insert_eq, ?lookup_delete_eq; tauto.
Qed.

Lemma run_tracked (acts : list action) (sys sys' : system) (i : nat) (jid : list Z)
    (ent : job) :
  tracked i jid ent sys -> run acts sys = Some sys' -> tracked i jid ent sys'.
Proof.
  revert sys. induction acts as [|act acts IH]; intros sys Ht; simpl.
  - by intros [= <-].
  - destruct (fire act sys) as [sys1|] eqn:Hf; simpl; [|done].
    apply IH. by eapply fire_tracked.
Qed.

Lemma initial_tracked (jobs : list (list Z * job)) (i : nat) (jid : list Z) (ent : job) :
  jobs !! i = Some (jid, ent) ->
  (forall j other, j <> i -> jobs !! j = Some other -> other.1 <> jid) ->
  tracked i jid ent (initial jobs).
Proof.
  intros Hi Hoth. unfold tracked, initial. simpl. split.
  - eexists. rewrite list_lookup_fmap, Hi. simpl. split; [done|]. split; [done|].
    split; [done|]. apply lookup_empty.
  - intros j b Hj Hb. apply list_lookup_fmap_Some in Hb as (o & -> & Ho). simpl.
    by apply (Hoth j).
Qed.

Lemma tracked_steps (sys : system) (i : nat) (jid : list Z) (ent : job) :
  tracked i jid ent sys ->
  exists a,
    activities sys !! i = Some a /\ job_id a = jid /\ entry a = ent /\
    (live (phase_of a) = true -> lookup_job jid (registry sys) = Some ent) /\
    (phase_of a = Finished ->
     reader_done a = true /\ waiter_done a = true /\
     lookup_job jid (registry sys) = None) /\
    (phase_of a = Waiting ->
     if reader_done a && waiter_done a
     then exists sys',
            fire (Unregister i) sys = Some sys' /\
            phase_of <$> activities sys' !! i = Some Finished /\
            lookup_job jid (registry sys') = None
     else fire (Unregister i) sys = None) /\
    (phase_of a <> Waiting -> fire (Unregister i) sys = None) /\
    (phase_of a = Announcing ->
     exists sys',
       fire (Announced i) sys = Some sys' /\
       phase_of <$> activities sys' !! i = Some Waiting) /\
    (live (phase_of a) = true ->
     (exists sys',
        fire (ReaderDone i) sys = Some sys' /\
        reader_done <$> activities sys' !! i = Some true) /\
     (exists sys',
        fire (WaiterDone i) sys = Some sys' /\
        waiter_done <$> activities sys' !! i = Some true)).
Proof.
  intros [(a & Hi & Hid & Hent & Hph) _]. exists a.
  assert (Hlt : (i < length (activities sys))%nat) by by eapply lookup_lt_Some.
  split; [done|]. split; [done|]. split; [done|]. unfold lookup_job.
  split; [|split; [|split; [|split; [|split]]]].
  - by destruct (phase_of a).
  - intros Hp. rewrite Hp in Hph. tauto.
  - intros Hp. simpl. rewrite Hi. simpl. rewrite Hp.
    destruct (reader_done a && waiter_done a); [|done].
    eexists. split; [done|]. unfold update. simpl.
    rewrite list_lookup_insert_eq by done. split; [done|].
    unfold unregister. rewrite Hid. apply lookup_delete_eq.
  - intros Hp. simpl. rewrite Hi. simpl. by destruct (phase_of a).
  - intros Hp. simpl. rewrite Hi. simpl. rewrite Hp.
    eexists. split; [done|]. unfold update. simpl.
    by rewrite list_lookup_insert_eq.
  - intros Hp. simpl. rewrite Hi. simpl.
    assert (Hs : tasks_started (phase_of a) = true) by by destruct (phase_of a).
    rewrite Hs. split; (eexists; split; [done|]); unfold update; simpl;
      by rewrite list_lookup_insert_eq.
Qed.

Lemma fire_update_eq (i : nat) (a : activity) (r : gmap (list Z) job) (sys : system) :
  (i < length (activities sys))%nat ->
  activities (update i a r sys) !! i = Some a.
Proof. intros Hlt. unfold update. simpl. by rewrite list_lookup_insert_eq. Qed.

Lemma update_length (i : nat) (a : activity) (r : gmap (list Z) job) (sys : system) :
  length (activities (update i a r sys)) = length (activities sys).
Proof. unfold update. simpl. apply length_insert. Qed.

(** A runner whose announcement is taken gets to its [pop]: its tasks
    finish, [asyncio.wait] returns, and the entry goes. *)
Lemma tracked_finishes (sys : system) (i : nat) (jid : list Z) (a : activity) :
  activities sys !! i = Some a -> job_id a = jid ->
  phase_of a = Waiting ->
  exists sys',
    run [ReaderDone i; WaiterDone i; Unregister i] sys = Some sys' /\
    phase_of <$> activities sys' !! i = Some Finished /\
    lookup_job jid (registry sys') = None.
Proof.
  intros Hi Hid Hp.
  assert (Hlt : (i < length (activities sys))%nat) by by eapply lookup_lt_Some.
  set (a1 := set_reader_done a). set (s1 := update i a1 (registry sys) sys).
  set (a2 := set_waiter_done a1). set (s2 := update i a2 (registry s1) s1).
  set (s3 := update i (set_phase Finished a2) (unregister (job_id a2) (registry s2)) s2).
  assert (H1 : fire (ReaderDone i) sys = Some s1).
  { simpl. rewrite Hi. simpl. by rewrite Hp. }
  assert (Hi1 : activities s1 !! i = Some a1) by by apply fire_update_eq.
  assert (H2 : fire (WaiterDone i) s1 = Some s2).
  { unfold fire. rewrite Hi1. simpl. by rewrite Hp. }
  assert (Hi2 : activities s2 !! i = Some a2).
  { apply fire_update_eq. unfold s1. by rewrite update_length. }
  assert (H3 : fire (Unregister i) s2 = Some s3).
  { unfold fire. rewrite Hi2. simpl. by rewrite Hp. }
  exists s3. split; [|split].
  - change (fire (ReaderDone i) sys
            ≫= (fun sys1 => fire (WaiterDone i) sys1
                  ≫= (fun sys2 => fire (Unregister i) sys2 ≫= Some)) = Some s3).
    apply bind_Some. exists s1. split; [exact H1|].
    apply bind_Some. exists s2. split; [exact H2|].
    apply bind_Some. by exists s3.
  - unfold s3. rewrite fire_update_eq; [done|]. unfold s2, s1. by rewrite !update_length.
  - unfold s3. simpl. unfold lookup_job, unregister. rewrite Hid. apply lookup_delete_eq.
Qed.

(** C8, as the code has it.  Take a job whose identifier no other job
    draws, and let the runners and tasks of all jobs take turns in any
    way.  The job is found under its identifier from the assignment of
    line 88 (160) until its runner has run the [pop] of line 97 (169), and
    is not found after it.  Once the announcement is taken, the [pop] can
    be run exactly when both tasks are done, and it is then reached: the
    tasks can always finish, and when they have, the runner's next step
    removes the entry.  A run of either runner whose announcement is
    taken ends with the identifier not found, whatever the exit status
    and whether or not the final report is taken.  The [pop] can be
    repeated without effect: on a registry without the identifier it
    changes nothing. *)
Theorem registry_follows_jobs (jobs : list (list Z * job)) (i : nat) (jid : list Z)
    (ent : job) (acts : list action) (sys : system) :
  jobs !! i = Some (jid, ent) ->
  (forall j other, j <> i -> jobs !! j = Some other -> other.1 <> jid) ->
  run acts (initial jobs) = Some sys ->
  (exists a,
     activities sys !! i = Some a /\ job_id a = jid /\ entry a = ent /\
     (live (phase_of a) = true -> lookup_job jid (registry sys) = Some ent) /\
     (phase_of a = Finished ->
      reader_done a = true /\ waiter_done a = true /\
      lookup_job jid (registry sys) = None) /\
     (phase_of a = Waiting ->
      if reader_done a && waiter_done a
      then exists sys',
             fire (Unregister i) sys = Some sys' /\
             phase_of <$> activities sys' !! i = Some Finished /\
             lookup_job jid (registry sys') = None
      else fire (Unregister i) sys = None) /\
     (phase_of a <> Waiting -> fire (Unregister i) sys = None) /\
     (phase_of a = Announcing ->
      exists sys',
        fire (Announced i) sys = Some sys' /\
        phase_of <$> activities sys' !! i = Some Waiting) /\
     (live (phase_of a) = true ->
      (exists sys',
         fire (ReaderDone i) sys = Some sys' /\
         reader_done <$> activities sys' !! i = Some true) /\
      (exists sys',
         fire (WaiterDone i) sys = Some sys' /\
         waiter_done <$> activities sys' !! i = Some true)) /\
     (phase_of a = Waiting ->
      exists sys',
        run [ReaderDone i; WaiterDone i; Unregister i] sys = Some sys' /\
        phase_of <$> activities sys' !! i = Some Finished /\
        lookup_job jid (registry sys') = None)) /\
  (forall job_id reg,
     unregister job_id (unregister job_id reg) = unregister job_id reg) /\
  (forall job_id reg,
     lookup_job job_id reg = None -> unregister job_id reg = reg) /\
  (forall job_id e s,
     (unregister_job job_id;; unregister_job job_id) e s = unregister_job job_id e s) /\
  (forall vid_filename sub_filename e s,
     edit_raises e (announce_slot s) = false ->
     lookup_job (uuid_hex8 e) (running_jobs (softmux_vid vid_filename sub_filename e s).2)
     = None /\
     lookup_job (uuid_hex8 e) (running_jobs (hardmux_vid vid_filename sub_filename e s).2)
     = None).
Proof.
  intros Hi Hoth Hrun.
  assert (Ht : tracked i jid ent sys).
  { eapply run_tracked; [|exact Hrun]. by apply initial_tracked. }
  split; [|split; [|split; [|split]]].
  - destruct (tracked_steps _ _ _ _ Ht)
      as (a & Ha & Hid & Hent & H1 & H2 & H3 & H4 & H5 & H6).
    exists a. do 9 (split; [done|]). intros Hp. by eapply tracked_finishes.
  - intros job_id reg. unfold unregister. apply delete_delete_eq.
  - intros job_id reg. unfold unregister, lookup_job. apply delete_id.
  - apply unregister_job_twice.
  - intros v sub e s Hok. unfold lookup_job. rewrite softmux_vid_eq, hardmux_vid_eq.
    split;
      match goal with
      | |- running_jobs (run_job ?k ?a ?b ?c ?p ?o ?e ?s1).2 !! _ = _ =>
          rewrite (run_job_frame k a b c p o e s1 Hok)
      end; apply lookup_delete_eq.
Qed.

(** One job, registered and announced: it is found. *)
Lemma registry_follows_jobs_witness :
  let one := {| proc := 0%nat; tasks := [1%nat; 2%nat]; type := soft |} in
  lookup_job (lit "1a2b3c4d") (<[lit "1a2b3c4d" := one]> ∅) = Some one.
Proof.
  intros one.
  destruct (registry_follows_jobs [(lit "1a2b3c4d", one)] 0 (lit "1a2b3c4d") one
              [Register 0%nat; Announced 0%nat] _ eq_refl
              ltac:(intros [|j] other Hj Hl; [done | discriminate Hl]) eq_refl)
    as [(a & Ha & _ & _ & Hlive & _) _].
  injection Ha as <-. by apply Hlive.
Defined.

(** Two jobs draw the same identifier.  The second assignment replaces
    the first entry; when the first job is over, its [pop] removes what
    the second job stored, and the second job, still under way, is no
    longer found. *)
Lemma shared_id_loses_running_job :
  let first := {| proc := 0%nat; tasks := [1%nat; 2%nat]; type := soft |} in
  let second := {| proc := 3%nat; tasks := [4%nat; 5%nat]; type := hard |} in
  exists sys a,
    run [Register 0%nat; Register 1%nat; Announced 0%nat; ReaderDone 0%nat;
         WaiterDone 0%nat; Unregister 0%nat]
      (initial [(lit "1a2b3c4d", first); (lit "1a2b3c4d", second)]) = Some sys /\
    activities sys !! 1%nat = Some a /\
    entry a = second /\
    live (phase_of a) = true /\
    lookup_job (job_id a) (registry sys) = None.
Proof. do 2 eexists. vm_compute. done. Qed.

(** * Further properties *)

(** ** The line reader, whatever the reads *)

Lemma split_from_cons (in_run : bool) (data : list Z) :
  exists piece pieces, split_from in_run data = piece :: pieces.
Proof.
  revert in_run. induction data as [|b data IH]; intros in_run; simpl; [by eexists _, _|].
  destruct (is_crlf b).
  - destruct in_run; [apply IH | by eexists _, _].
  - destruct (IH false) as (piece & pieces & ->). by eexists _, _.
Qed.

Lemma split_from_concat (in_run : bool) (data : list Z) :
  concat (split_from in_run data) = List.filter (fun b => negb (is_crlf b)) data.
Proof.
  revert in_run. induction data as [|b data IH]; intros in_run; simpl; [done|].
  destruct (is_crlf b); simpl.
  - destruct in_run; simpl; apply IH.
  - rewrite <- (IH false). destruct (split_from_cons false data) as (piece & pieces & ->).
    done.
Qed.

Lemma split_from_clean (in_run : bool) (data : list Z) :
  Forall (Forall (fun b => is_crlf b = false)) (split_from in_run data).
Proof.
  revert in_run. induction data as [|b data IH]; intros in_run; simpl.
  - by repeat constructor.
  - destruct (is_crlf b) eqn:Hb.
    + destruct in_run; [apply IH | constructor; [constructor | apply IH]].
    + pose proof (IH false) as H.
      destruct (split_from_cons false data) as (piece & pieces & Heq).
      rewrite Heq in *. inversion H; subst. by repeat constructor.
Qed.

Lemma filter_clean (l : list Z) :
  Forall (fun b => is_crlf b = false) l ->
  List.filter (fun b => negb (is_crlf b)) l = l.
Proof.
  induction 1 as [|b l Hb _ IH]; simpl; [done|]. by rewrite Hb, IH.
Qed.

Lemma re_split_parts (data : list Z) :
  re_split data = List.removelast (re_split data) ++ [List.last (re_split data) []].
Proof.
  apply app_removelast_last. unfold re_split.
  by destruct (split_from_cons false data) as (piece & pieces & ->).
Qed.

Lemma re_split_clean_parts (data : list Z) :
  Forall (Forall (fun b => is_crlf b = false)) (List.removelast (re_split data)) /\
  Forall (fun b => is_crlf b = false) (List.last (re_split data) []).
Proof.
  pose proof (split_from_clean false data) as H. fold (re_split data) in H.
  rewrite re_split_parts in H. apply Forall_app in H as [H1 H2].
  split; [done | by inversion H2].
Qed.

Lemma readlines_from_clean (data : list Z) (stream : list (list Z)) :
  Forall (Forall (fun b => is_crlf b = false)) (readlines_from data stream).1.
Proof.
  revert data. induction stream as [|chunk stream IH]; intros data; simpl; [constructor|].
  apply Forall_app. split; [apply re_split_clean_parts | apply IH].
Qed.

Lemma readlines_from_payload (data : list Z) (stream : list (list Z)) :
  concat (readlines_from data stream).1
  ++ List.filter (fun b => negb (is_crlf b)) (readlines_from data stream).2
  = List.filter (fun b => negb (is_crlf b)) (data ++ concat stream).
Proof.
  revert data. induction stream as [|chunk stream IH]; intros data; simpl.
  - by rewrite app_nil_r.
  - rewrite concat_app, <- app_assoc, IH.
    rewrite !List.filter_app.
    rewrite (filter_clean (List.last (re_split data) [])) by apply re_split_clean_parts.
    rewrite !app_assoc. do 2 f_equal.
    rewrite <- split_from_concat with (in_run := false). fold (re_split data).
    rewrite (re_split_parts data) at 3. rewrite concat_app. simpl. by rewrite app_nil_r.
Qed.

(** No yielded line holds a CR or an LF. *)
Theorem readlines_lines_have_no_terminator (stream : list (list Z)) :
  Forall (Forall (fun b => is_crlf b = false)) (readlines stream).
Proof. apply readlines_from_clean. Qed.

(** The octets other than CR and LF come out once and in order: those of
    the yielded lines, followed by those of the dropped buffer, are those
    of the stream. *)
Theorem readlines_keeps_payload (stream : list (list Z)) :
  concat (readlines stream)
  ++ List.filter (fun b => negb (is_crlf b)) (readlines_dropped stream)
  = List.filter (fun b => negb (is_crlf b)) (concat stream).
Proof. apply (readlines_from_payload [] stream). Qed.

Lemma readlines_from_last_read (data c : list Z) (stream : list (list Z)) :
  (readlines_from data (stream ++ [c])).1 = (readlines_from data (stream ++ [[]])).1 /\
  (readlines_from data (stream ++ [c])).2 = (readlines_from data (stream ++ [[]])).2 ++ c /\
  Forall (fun b => is_crlf b = false) (readlines_from data (stream ++ [[]])).2.
Proof.
  revert data. induction stream as [|chunk stream IH]; intros data; simpl.
  - rewrite !app_nil_r. repeat split. apply re_split_clean_parts.
  - destruct (IH (List.last (re_split data) [] ++ chunk)) as (-> & -> & H). done.
Qed.

(** What the last read returns is never split: the lines are those of
    the reads before it, and the last read is dropped whole, after the
    fragment that was pending, which holds no CR or LF. *)
Theorem readlines_drops_last_read (stream : list (list Z)) (c : list Z) :
  readlines (stream ++ [c]) = readlines (stream ++ [[]]) /\
  readlines_dropped (stream ++ [c]) = readlines_dropped (stream ++ [[]]) ++ c /\
  Forall (fun b => is_crlf b = false) (readlines_dropped (stream ++ [[]])).
Proof. apply readlines_from_last_read. Qed.

(** ** Decoding *)

Lemma decode_from_cons (b : Z) (s : list Z) :
  decode_from 0 (b :: s) =
  match utf8_head (b :: s) with
  | Some (c, n) => c :: decode_from (n - 1) s
  | None => decode_from 0 s
  end.
Proof. reflexivity. Qed.

Lemma decode_from_length (skip : nat) (s : list Z) :
  (length (decode_from skip s) <= length s)%nat.
Proof.
  revert skip. induction s as [|b s IH]; intros skip; [by destruct skip|].
  destruct skip as [|n].
  - rewrite decode_from_cons. destruct (utf8_head (b :: s)) as [[c n]|].
    + specialize (IH (n - 1)%nat). simpl length. lia.
    + specialize (IH 0%nat). simpl length. lia.
  - specialize (IH n). simpl. lia.
Qed.

(** Text in ASCII is decoded to itself, and no input is decoded to more
    characters than it has octets. *)
Theorem decode_ignore_ascii (s : list Z) :
  (Forall (fun b => 0 <= b <= 127) s -> decode_ignore s = s) /\
  (length (decode_ignore s) <= length s)%nat.
Proof.
  split; [|apply decode_from_length].
  unfold decode_ignore. induction 1 as [|b s Hb _ IH]; [done|].
  rewrite decode_from_cons. unfold utf8_head.
  assert (H : (0 <=? b) && (b <=? 127) = true) by (apply andb_true_iff; lia).
  rewrite H. simpl. by rewrite IH.
Qed.

Lemma decode_ignore_ascii_witness :
  decode_ignore (lit "frame=  10 fps= 25") = lit "frame=  10 fps= 25".
Proof.
  apply (decode_ignore_ascii (lit "frame=  10 fps= 25")).
  let l := eval vm_compute in (lit "frame=  10 fps= 25") in
  change (lit "frame=  10 fps= 25") with l.
  repeat (constructor; [lia|]). constructor.
Defined.

(** ** Names and extensions *)

Lemma rfind_from_spec (c : Z) (s : list Z) (i found : Z) :
  (rfind_from c i found s = found /\ (c ∉ s)) \/
  (exists pre post,
     s = pre ++ c :: post /\ (c ∉ post) /\
     rfind_from c i found s = i + Z.of_nat (length pre)).
Proof.
  revert i found. induction s as [|x s IH]; intros i found; simpl.
  - left. split; [done | apply not_elem_of_nil].
  - destruct (IH (i + 1) (if x =? c then i else found))
      as [[Hr Hn] | (pre & post & -> & Hn & Hr)].
    + destruct (Z.eqb_spec x c) as [->|Hne].
      * right. exists [], s. simpl. repeat split; [done|]. rewrite Hr. lia.
      * left. split; [done|]. by apply not_elem_of_cons.
    + right. exists (x :: pre), post. repeat split; [done|]. rewrite Hr. simpl length. lia.
Qed.

Lemma rfind_spec (c : Z) (s : list Z) :
  (rfind c s = -1 /\ (c ∉ s)) \/
  (exists pre post,
     s = pre ++ c :: post /\ (c ∉ post) /\ rfind c s = Z.of_nat (length pre)).
Proof.
  unfold rfind. destruct (rfind_from_spec c s 0 (-1)) as [H | (pre & post & H1 & H2 & H3)];
    [by left | right]. exists pre, post. by rewrite H3.
Qed.

Lemma rfind_lower (c : Z) (s : list Z) : -1 <= rfind c s.
Proof. destruct (rfind_spec c s) as [[-> _] | (? & ? & _ & _ & ->)]; lia. Qed.

Lemma splitext_ext_cases (p : list Z) :
  (splitext p).2 = [] \/
  exists e, (splitext p).2 = 46 :: e /\ (46 ∉ e) /\ (47 ∉ e) /\ (splitext p).1 <> [].
Proof.
  unfold splitext.
  destruct ((rfind 47 p <? rfind 46 p) && _) eqn:Hc; simpl; [|by left].
  right. apply andb_true_iff in Hc as [Hlt Hex]. apply Z.ltb_lt in Hlt.
  pose proof (rfind_lower 47 p) as Hsep.
  destruct (rfind_spec 46 p) as [[Hd _] | (pre & post & Hp & Hpost & Hd)]; [lia|].
  rewrite Hd in *. rewrite Nat2Z.id.
  assert (Hdrop : drop (length pre) p = 46 :: post)
    by (rewrite Hp; apply drop_app_length).
  assert (Htake : take (length pre) p = pre)
    by (rewrite Hp; apply take_app_length).
  rewrite Hdrop, Htake. exists post. repeat split; [done| |].
  - destruct (rfind_spec 47 p) as [[_ Hn] | (pre' & post' & Hp' & Hpost' & Hs)].
    + intros Hin. apply Hn. rewrite Hp. set_solver.
    + rewrite Hs in Hlt. intros Hin. apply Hpost'.
      assert (Hpost_eq : post = drop (S (length pre)) p).
      { rewrite Hp. rewrite cons_middle, app_assoc.
        rewrite drop_app_length'; [done|]. rewrite length_app. simpl. lia. }
      rewrite Hpost_eq, Hp' in Hin.
      rewrite drop_app_ge in Hin by lia.
      assert (Hk : (S (length pre) - length pre' = S (length pre - length pre'))%nat)
        by lia.
      rewrite Hk in Hin.
      simpl in Hin. by eapply subseteq_drop.
  - intros ->. simpl in *.
    assert (rfind 47 p = -1) as Hs by lia. rewrite Hs in Hex. simpl in Hex.
    done.
Qed.

(** [splitext] cuts the name in two; the second part is empty or a dot
    followed by characters other than dot and slash, and then the first
    part is not empty.  A name without a dot has no extension. *)
Theorem splitext_shape (p : list Z) :
  (splitext p).1 ++ (splitext p).2 = p /\
  ((splitext p).2 = [] \/
   exists e, (splitext p).2 = 46 :: e /\ (46 ∉ e) /\ (47 ∉ e) /\ (splitext p).1 <> []) /\
  ((46 ∉ p) -> splitext p = (p, [])).
Proof.
  split; [|split].
  - unfold splitext. destruct (_ && _); simpl; [apply take_drop | apply app_nil_r].
  - apply splitext_ext_cases.
  - intros Hn. unfold splitext. pose proof (rfind_lower 47 p) as Hsep.
    destruct (rfind_spec 46 p) as [[Hd _] | (pre & post & Hp & _)].
    + rewrite Hd. destruct (_ <? _) eqn:Hlt; [|done]. apply Z.ltb_lt in Hlt. lia.
    + exfalso. apply Hn. rewrite Hp. set_solver.
Qed.

Lemma splitext_shape_witness : splitext (lit "README") = (lit "README", []).
Proof.
  apply (splitext_shape (lit "README")). vm_compute.
  intros H. repeat (apply elem_of_cons in H as [H|H]; [discriminate|]).
  by apply elem_of_nil in H.
Defined.

(** ** Lines as the tool prints them *)

Lemma findall_from_skip (n : nat) (s : list Z) :
  findall_from n s = findall_from 0 (drop n s).
Proof.
  revert n. induction s as [|c s IH]; intros n; [by rewrite drop_nil|].
  destruct n as [|n]; [done|]. simpl. apply IH.
Qed.

Lemma findall_from_blank (s : list Z) :
  findall_from 0 (32 :: s) = findall_from 0 s.
Proof. reflexivity. Qed.

Lemma progress_field_cons (k : list Z) :
  k ∈ progress_fields -> exists c k', k = c :: k'.
Proof.
  unfold progress_fields. rewrite !elem_of_cons, elem_of_nil.
  intros H. decompose [or] H; subst; try done; by eexists _, _.
Qed.

Lemma findall_from_match (s k v : list Z) (m : nat) :
  match_here s = Some (k, v, m) -> (1 <= m)%nat ->
  findall_from 0 s = (k, v) :: findall_from 0 (drop m s).
Proof.
  intros Hm Hpos. destruct s as [|c s]; [by rewrite match_here_nil in Hm|].
  simpl. rewrite Hm. f_equal. rewrite findall_from_skip.
  by replace m with (S (m - 1)) at 2 by lia.
Qed.

Lemma print_fields_cons (k v : list Z) (n : nat) (fields : list (list Z * nat * list Z)) :
  print_fields ((k, n, v) :: fields)
  = (k ++ [] ++ [61] ++ replicate n 32 ++ v) ++ 32 :: print_fields fields.
Proof. unfold print_fields. simpl. by repeat (rewrite <- app_assoc; simpl). Qed.

(** A progress line, printed and parsed again.  Each field is printed as
    its name, [=], some blanks, its value and a blank; when the names are
    among the six and the values are not empty and hold no white space,
    the scan finds the fields with their values, in their order, and the
    snapshot holds for each name the value printed last. *)
Theorem parse_progress_of_printed (fields : list (list Z * nat * list Z)) :
  Forall (fun f => f.1.1 ∈ progress_fields /\ f.2 <> []
                   /\ Forall (fun c => is_space c = false) f.2) fields ->
  findall (print_fields fields) = map (fun f => (f.1.1, f.2)) fields /\
  (fields <> [] ->
   parse_progress (print_fields fields)
   = Some (dict_of_pairs (map (fun f => (f.1.1, f.2)) fields))).
Proof.
  intros Hok.
  assert (Hfind : findall (print_fields fields) = map (fun f => (f.1.1, f.2)) fields).
  { unfold findall. induction Hok as [|[[k n] v] fields (Hk & Hv & Hns) _ IH]; [done|].
    simpl in Hk, Hv, Hns. rewrite print_fields_cons.
    assert (Hm : match_here ((k ++ [] ++ [61] ++ replicate n 32 ++ v)
                             ++ 32 :: print_fields fields)
                 = Some (k, v, (length k + (length (@nil Z) + 1
                                            + length (replicate n 32%Z) + length v))%nat)).
    { rewrite <- !app_assoc. apply match_alternatives_complete; [done| |].
      - intros k0 Hk0 Hne. by apply fields_prefix_free.
      - apply match_value_shape; try done. by apply Forall_replicate. }
    rewrite (findall_from_match _ _ _ _ Hm) by (simpl; lia).
    simpl map. f_equal.
    replace (length k + (length (@nil Z) + 1 + length (replicate n 32%Z) + length v))%nat
      with (length (k ++ [] ++ [61] ++ replicate n 32 ++ v))
      by (rewrite !length_app; simpl; lia).
    rewrite drop_app_length. by rewrite findall_from_blank. }
  split; [done|]. intros Hne. unfold parse_progress. rewrite Hfind.
  rewrite decide_False; [done|]. rewrite dict_of_pairs_empty.
  by destruct fields.
Qed.

Lemma parse_progress_of_printed_witness :
  findall (print_fields [(lit "frame", 2%nat, lit "10"); (lit "fps", 1%nat, lit "25")])
  = [(lit "frame", lit "10"); (lit "fps", lit "25")].
Proof.
  apply (parse_progress_of_printed
           [(lit "frame", 2%nat, lit "10"); (lit "fps", 1%nat, lit "25")]).
  repeat constructor; simpl; try discriminate; unfold progress_fields; set_solver.
Defined.

(** ** When the throttle opens *)

Lemma inject_Z_lt_succ (a b : Z) : (inject_Z a < inject_Z b + 1)%Q -> a < b + 1.
Proof.
  intros H. rewrite Zlt_Qlt, inject_Z_plus. change (inject_Z 1) with 1%Q. done.
Qed.

Lemma py_round_within (x : Q) (n : Z) :
  (inject_Z n - (1 # 2) < x < inject_Z n + (1 # 2))%Q -> py_round x = n.
Proof.
  intros [Hlo Hhi]. pose proof (py_round_nearest x) as [H1 H2].
  assert (Ha : py_round x < n + 1).
  { apply inject_Z_lt_succ. revert Hlo Hhi H1 H2.
    generalize (inject_Z (py_round x)), (inject_Z n). intros; lra. }
  assert (Hb : n < py_round x + 1).
  { apply inject_Z_lt_succ. revert Hlo Hhi H1 H2.
    generalize (inject_Z (py_round x)), (inject_Z n). intros; lra. }
  lia.
Qed.

Lemma Qfloor_within (x : Q) (n : Z) :
  (inject_Z n <= x < inject_Z n + 1)%Q -> Qfloor x = n.
Proof.
  intros [Hlo Hhi]. pose proof (Qfloor_le x) as H1. pose proof (Qlt_floor x) as H2.
  rewrite inject_Z_plus in H2. change (inject_Z 1) with 1%Q in H2.
  assert (Ha : Qfloor x < n + 1).
  { apply inject_Z_lt_succ. revert Hlo Hhi H1 H2.
    generalize (inject_Z (Qfloor x)), (inject_Z n). intros; lra. }
  assert (Hb : n < Qfloor x + 1).
  { apply inject_Z_lt_succ. revert Hlo Hhi H1 H2.
    generalize (inject_Z (Qfloor x)), (inject_Z n). intros; lra. }
  lia.
Qed.

Lemma py_round_tie (x : Q) (n : Z) :
  (x == inject_Z n + (1 # 2))%Q -> py_round x = if Z.even n then n else n + 1.
Proof.
  intros Hx. unfold py_round.
  assert (Hf : Qfloor x = n).
  { apply Qfloor_within. revert Hx. generalize (inject_Z n). intros; lra. }
  rewrite Hf.
  assert (Hc : Qcompare (x - inject_Z n) (1 # 2) = Eq).
  { apply Qeq_alt. revert Hx. generalize (inject_Z n). intros; lra. }
  by rewrite Hc.
Qed.

(** Around a multiple [5 k] of five seconds the throttle is open for
    every elapsed time less than half a second away.  At exactly half a
    second before or after it is open when [k] is even and shut when [k]
    is odd, [round] sending a tie to the even neighbour.  It is open
    nowhere else. *)
Theorem throttle_window (x : Q) (k : Z) :
  ((inject_Z (5 * k) - (1 # 2) < x < inject_Z (5 * k) + (1 # 2))%Q ->
   throttle_due x = true) /\
  ((x == inject_Z (5 * k) + (1 # 2))%Q -> throttle_due x = Z.even k) /\
  ((x == inject_Z (5 * k) - (1 # 2))%Q -> throttle_due x = Z.even k) /\
  (throttle_due x = true ->
   exists k', (inject_Z (5 * k') - (1 # 2) <= x <= inject_Z (5 * k') + (1 # 2))%Q).
Proof.
  assert (F0 : (5 * k) mod 5 = 0) by (rewrite Z.mul_comm; apply Z_mod_mult).
  assert (F1 : (5 * k + 1) mod 5 = 1)
    by (rewrite Z.add_comm, Z.mul_comm, Z_mod_plus_full; reflexivity).
  assert (F4 : (5 * k - 1) mod 5 = 4)
    by (unfold Z.sub; rewrite Z.add_comm, Z.mul_comm, Z_mod_plus_full; reflexivity).
  assert (F5 : (5 * k - 1 + 1) mod 5 = 0) by (rewrite Z.sub_add; exact F0).
  unfold throttle_due. repeat split.
  - intros H. rewrite (py_round_within x (5 * k) H). by rewrite F0.
  - intros H. rewrite (py_round_tie x (5 * k) H).
    rewrite Z.even_mul. simpl. destruct (Z.even k); [by rewrite F0 | by rewrite F1].
  - intros H.
    assert (H' : (x == inject_Z (5 * k - 1) + (1 # 2))%Q).
    { unfold Z.sub. rewrite inject_Z_plus. change (inject_Z (- (1))) with (-1 # 1)%Q.
      revert H. generalize (inject_Z (5 * k)). intros; lra. }
    rewrite (py_round_tie x (5 * k - 1) H').
    rewrite Z.even_sub, Z.even_mul. simpl.
    destruct (Z.even k); simpl; [by rewrite F5 | by rewrite F4].
  - intros H. apply Z.eqb_eq in H. exists (py_round x / 5).
    replace (5 * (py_round x / 5)) with (py_round x)
      by (rewrite (Z_div_mod_eq_full (py_round x) 5) at 1; lia).
    apply py_round_nearest.
Qed.

Lemma throttle_window_witness :
  throttle_due (51 # 10) = true /\ throttle_due (11 # 2) = false
  /\ throttle_due (21 # 2) = true.
Proof.
  pose proof (throttle_window (51 # 10) 1) as (H1 & _).
  pose proof (throttle_window (11 # 2) 1) as (_ & H2 & _).
  pose proof (throttle_window (21 # 2) 2) as (_ & H3 & _).
  split; [|split].
  - apply H1. split; reflexivity.
  - apply H2. reflexivity.
  - apply H3. reflexivity.
Defined.

Lemma due_texts_always (clock : nat -> Q) (n : nat) (lines : list (list Z)) :
  (forall i, throttle_due (clock i) = true) ->
  length (due_texts clock n lines) = parsed_count lines.
Proof.
  intros Hdue. revert n. induction lines as [|raw lines IH]; intros n; [done|].
  rewrite parsed_count_cons. simpl.
  destruct (parse_progress (decode_ignore raw)) as [prog|]; [|apply IH].
  rewrite Hdue. simpl. by rewrite IH.
Qed.

Lemma due_texts_never (clock : nat -> Q) (n : nat) (lines : list (list Z)) :
  (forall i, throttle_due (clock i) = false) -> due_texts clock n lines = [].
Proof.
  intros Hdue. revert n. induction lines as [|raw lines IH]; intros n; [done|].
  simpl. destruct (parse_progress (decode_ignore raw)) as [prog|]; [|apply IH].
  rewrite Hdue. simpl. apply IH.
Qed.

(** The throttle counts no notifications.  While the rounded elapsed time
    stays on a multiple of five, [read_stderr] calls [msg.edit] for every
    line that parses; while it stays off one, for none. *)
Theorem read_stderr_edits_every_due_line (e : env) (s : state) :
  ((forall i, throttle_due (elapsed_at e i) = true) ->
   length (edits (read_stderr e s).2)
   = (length (edits s) + parsed_count (readlines (stderr_pipe s)))%nat) /\
  ((forall i, throttle_due (elapsed_at e i) = false) ->
   edits (read_stderr e s).2 = edits s).
Proof.
  rewrite read_stderr_eq. simpl. split; intros H.
  - by rewrite length_app, due_texts_always.
  - by rewrite due_texts_never, app_nil_r.
Qed.

Lemma read_stderr_edits_every_due_line_witness :
  edits (read_stderr
           {| DOWNLOAD_DIR := []; user_settings := ∅; uuid_hex8 := [];
              tool_stderr := []; tool_returncode := 0;
              elapsed_at := fun _ => 2 # 1; edit_raises := never |}
           (set_stderr_pipe sample_progress idle_state)).2 = [].
Proof.
  apply (read_stderr_edits_every_due_line
           {| DOWNLOAD_DIR := []; user_settings := ∅; uuid_hex8 := [];
              tool_stderr := []; tool_returncode := 0;
              elapsed_at := fun _ => 2 # 1; edit_raises := never |}
           (set_stderr_pipe sample_progress idle_state)).
  intros i. reflexivity.
Defined.

(** ** What a run leaves behind *)

Section runs.

#[local] Arguments lit : simpl never.
#[local] Arguments register : simpl never.
#[local] Arguments unregister : simpl never.
#[local] Arguments readlines : simpl never.
#[local] Arguments due_texts : simpl never.
#[local] Arguments parsed_count : simpl never.
#[local] Arguments started_text : simpl never.
#[local] Arguments completed_text : simpl never.
#[local] Arguments error_text : simpl never.
#[local] Arguments softmux_argv : simpl never.
#[local] Arguments hardmux_argv : simpl never.
#[local] Arguments path_join : simpl never.
#[local] Arguments splitext : simpl never.

Lemma run_job_announce_raises (kind : mux_type) (started completed failed : list Z)
    (proc : nat) (output : list Z) (e : env) (s : state) :
  edit_raises e (length (edits s)) = true ->
  run_job kind started completed failed proc output e s =
  (Raised NotifierError,
   {| running_jobs :=
        register (uuid_hex8 e)
          {| proc := proc; tasks := [handles s; S (handles s)]; type := kind |}
          (running_jobs s);
      stderr_pipe := stderr_pipe s; returncode := returncode s;
      launched := launched s;
      edits := edits s ++ [started_text started (uuid_hex8 e)];
      clock_reads := clock_reads s; handles := S (S (handles s)) |}).
Proof.
  intros Hr. unfold run_job. do 4 mstep.
  erewrite bind_Raised by (apply msg_edit_raise; exact Hr). done.
Qed.

(** A run whose announcement is taken leaves the registry as it found
    it, less the identifier it drew: this holds for either exit status
    and whether or not the final report is taken, no entry of another
    identifier is touched, and an entry that stood under the drawn
    identifier before the run is gone as well. *)
Theorem mux_leaves_other_jobs (vid_filename sub_filename : list Z) (e : env) (s : state) :
  edit_raises e (announce_slot s) = false ->
  running_jobs (softmux_vid vid_filename sub_filename e s).2
  = delete (uuid_hex8 e) (running_jobs s) /\
  running_jobs (hardmux_vid vid_filename sub_filename e s).2
  = delete (uuid_hex8 e) (running_jobs s).
Proof.
  intros Hok. rewrite softmux_vid_eq, hardmux_vid_eq.
  split;
    match goal with
    | |- running_jobs (run_job ?k ?a ?b ?c ?p ?o ?e ?s1).2 = _ =>
        exact (run_job_frame k a b c p o e s1 Hok)
    end.
Qed.

Lemma mux_leaves_other_jobs_witness :
  running_jobs (softmux_vid (lit "movie.mp4") (lit "subs.srt")
                  (sample_env sample_failure 2 never) idle_state).2 = ∅.
Proof.
  rewrite (proj1 (mux_leaves_other_jobs (lit "movie.mp4") (lit "subs.srt")
                    (sample_env sample_failure 2 never) idle_state eq_refl)).
  apply delete_empty.
Defined.

(** When the announcement is refused the runner raises and never reaches
    its [pop]: the job stays in the registry, under the identifier drawn,
    whatever its two tasks do. *)
Theorem mux_announce_failure_leaves_job (vid_filename sub_filename : list Z)
    (e : env) (s : state) :
  edit_raises e (announce_slot s) = true ->
  (exists s',
     softmux_vid vid_filename sub_filename e s = (Raised NotifierError, s') /\
     lookup_job (uuid_hex8 e) (running_jobs s')
     = Some {| proc := handles s; tasks := [S (handles s); S (S (handles s))];
               type := soft |}) /\
  (exists s',
     hardmux_vid vid_filename sub_filename e s = (Raised NotifierError, s') /\
     lookup_job (uuid_hex8 e) (running_jobs s')
     = Some {| proc := handles s; tasks := [S (handles s); S (S (handles s))];
               type := hard |}).
Proof.
  intros Hr. rewrite softmux_vid_eq, hardmux_vid_eq.
  split; (eexists; split; [by apply run_job_announce_raises|]); simpl;
    apply lookup_insert_eq.
Qed.

Lemma mux_announce_failure_leaves_job_witness :
  (softmux_vid (lit "movie.mp4") (lit "subs.srt")
     (sample_env sample_progress 0 (Nat.eqb 0)) idle_state).1 = Raised NotifierError.
Proof.
  destruct (mux_announce_failure_leaves_job (lit "movie.mp4") (lit "subs.srt")
              (sample_env sample_progress 0 (Nat.eqb 0)) idle_state eq_refl)
    as [(s' & Hs & _) _].
  by rewrite Hs.
Defined.

End runs.

(** ** The command lines *)




(** [os.path.join] as the runners use it at lines 65-69 (129-130, 140): a
    file name that starts with a slash is taken as it is, and the
    download directory plays no part; any other name is put after the
    directory, with a slash between the two unless the directory is empty
    or ends with one. *)
Theorem path_join_cases (dir name : list Z) :
  (forall rest, name = 47 :: rest -> path_join dir name = name) /\
  (match name with 47 :: _ => False | _ => True end ->
   exists sep,
     path_join dir name = dir ++ sep ++ name /\
     (sep = [] \/ sep = [47]) /\
     (sep = [] <-> dir = [] \/ exists dir', dir = dir' ++ [47])).
Proof.
  split; [by intros rest ->|]. intros Hrel.
  assert (Hjoin : path_join dir name
                  = match List.last dir 47 with
                    | 47 => dir ++ name
                    | _ => dir ++ [47] ++ name
                    end).
  { unfold path_join. destruct name as [|c name]; [done|].
    destruct (decide (c = 47)) as [->|Hc]; [done|].
    destruct c as [|c|c]; try done.
    do 6 (destruct c as [c|c|]; try done). }
  rewrite Hjoin. clear Hjoin.
  destruct dir as [|d dir _] using rev_ind.
  { exists []. simpl. split; [done|]. split; [by left|]. split; [by left|done]. }
  rewrite last_last.
  destruct (decide (d = 47)) as [->|Hd].
  - exists []. split; [done|]. split; [by left|]. split; [|done]. intros _. right. by eexists.
  - exists [47]. split.
    + destruct d as [|d|d]; try done. do 6 (destruct d as [d|d|]; try done).
    + split; [by right|]. split; [done|]. intros [H|[dir' H]].
      * by destruct dir.
      * apply app_inj_tail in H as [_ ->]. done.
Qed.

(** ** The registry and the phases *)

(** When no two jobs draw the same identifier, then however the runners
    and tasks take turns, the registry holds an entry under a job's
    identifier exactly from the assignment of line 88 (160) to the [pop]
    of line 97 (169), and forever if the announcement was refused; the
    entry is the job's own. *)
Theorem registry_holds_registered_jobs (jobs : list (list Z * job)) (acts : list action)
    (sys : system) :
  NoDup jobs.*1 ->
  run acts (initial jobs) = Some sys ->
  forall a, a ∈ activities sys ->
    lookup_job (job_id a) (registry sys)
    = match phase_of a with
      | Starting | Finished => None
      | Announcing | Waiting | Aborted => Some (entry a)
      end.
Proof.
  intros Hnd Hrun a [i Hi]%list_elem_of_lookup.
  assert (Hc : consistent sys).
  { eapply run_consistent; [| apply initial_consistent | exact Hrun].
    by rewrite initial_ids. }
  pose proof (Hc i a Hi) as Ha. unfold lookup_job.
  destruct (phase_of a); try done. tauto.
Qed.

Lemma registry_holds_registered_jobs_witness :
  let one := {| proc := 0%nat; tasks := [1%nat; 2%nat]; type := hard |} in
  lookup_job (lit "1a2b3c4d") (<[lit "1a2b3c4d" := one]> ∅) = Some one.
Proof.
  intros one.
  apply (registry_holds_registered_jobs [(lit "1a2b3c4d", one)]
           [Register 0%nat; ReaderDone 0%nat; AnnounceFailed 0%nat; WaiterDone 0%nat]
           _ ltac:(repeat constructor; set_solver) eq_refl
           {| job_id := lit "1a2b3c4d"; entry := one; phase_of := Aborted;
              reader_done := true; waiter_done := true |}).
  simpl. by left.
Defined.
